(** * AirdropManager: lifecycle of time-bounded airdrops

    A shallow embedding of [lib/airdrops/airdrop_manager.py].  The manager
    keeps an in-process cache [_state] (a Python dict from message id to
    [Airdrop]), mirrors it in the MongoDB collection [airdrops], and talks
    to Discord and to the crypto backend through awaited calls.

    Awaited calls on collaborators are recorded in a trace, in program
    order, and their outcome (return or raise) is read from a [World].
    Mutations of [_state] made before an exception is raised persist, as
    they do in Python. *)

From Stdlib Require Import ZArith List Bool Lia.
Import ListNotations.
Local Open Scope Z_scope.

(** ** Python dict, insertion ordered *)

Module Dict.
Section Ops.
Context {V : Type}.

Definition t := list (Z * V).

(** [d.get(k)] *)
Fixpoint get (k : Z) (d : t) : option V :=
  match d with
  | [] => None
  | (k', v) :: d' => if k =? k' then Some v else get k d'
  end.

(** [d[k] = v]: an existing key keeps its position. *)
Fixpoint set (k : Z) (v : V) (d : t) : t :=
  match d with
  | [] => [(k, v)]
  | (k', v') :: d' =>
      if k =? k' then (k, v) :: d' else (k', v') :: set k v d'
  end.

(** [del d[k]] on a dict that holds [k]: the entry of [k] is dropped (a
    dict has one at most).  The caller raises [KeyError] when [k] is not
    held, see [state_del]. *)
Definition del (k : Z) (d : t) : t :=
  filter (fun kv => negb (k =? fst kv)) d.

(** [d.values()] *)
Definition values (d : t) : list V := map snd d.

Definition keys (d : t) : list Z := map fst d.

(** [{key(x): x for x in xs}] *)
Definition comprehension (key : V -> Z) (xs : list V) : t :=
  fold_left (fun acc x => set (key x) x acc) xs [].

(** [d.update(new)] *)
Definition update (d new : t) : t :=
  fold_left (fun acc kv => set (fst kv) (snd kv) acc) new d.
End Ops.
Arguments t : clear implicits.
End Dict.

(** ** Entities *)

(** The fields [__fetch_db_state] passes to the [Airdrop] constructor.
    Amounts and times are integers here; the source also lets [amount]
    and [duration] be floats. *)
Record Airdrop := mkAirdrop {
  guild_id : Z;
  channel_id : Z;
  message_id : Z;
  amount : Z;
  end_time : Z;
  entrants : list Z
}.

(** A document of the [airdrops] collection, with the keys
    [__fetch_db_state] reads. *)
Record Doc := mkDoc {
  _id : Z;
  gid : Z;
  cid : Z;
  doc_amount : Z;
  doc_end_time : Z;
  doc_entrants : list Z
}.

Record TextChannel := mkChannel { chan_id : Z; chan_guild : Z }.
Record Message := mkMessage { msg_id : Z; msg_channel : TextChannel }.
Record ApplicationContext := mkCtx { ctx_channel : TextChannel; ctx_author : Z }.

(** [Union[int, Airdrop]], the argument of [get_airdrop], [_remove],
    [cancel] and [resolve]. *)
Inductive Ref :=
| ById (id : Z)
| ByEntity (a : Airdrop).

(** Lines 25-30: the [Airdrop] built from one document. *)
Definition airdrop_of_doc (d : Doc) : Airdrop :=
  {| guild_id := gid d;
     channel_id := cid d;
     message_id := _id d;
     amount := doc_amount d;
     end_time := doc_end_time d;
     entrants := doc_entrants d |}.

(** Modelled from the spec: [Airdrop.to_db_dict] is in [airdrop.py], which
    is not part of the sources at hand.  The Store record has the fields
    id, locationId, amount, endTime and entrants of the event; the keys
    are those [__fetch_db_state] reads back. *)
Definition to_db_dict (a : Airdrop) : Doc :=
  {| _id := message_id a;
     gid := guild_id a;
     cid := channel_id a;
     doc_amount := amount a;
     doc_end_time := end_time a;
     doc_entrants := entrants a |}.

(** Modelled from the spec: [Airdrop.from_message] is in [airdrop.py], which
    is not part of the sources at hand.  The created event takes its id from
    the anchor message, its location from the channel (the message's own
    channel when none is given), the given amount and end time, and
    [entrants = {}]. *)
Definition from_message (message : Message) (amount0 end_time0 : Z)
    (channel : option TextChannel) : Airdrop :=
  let ch := match channel with Some c => c | None => msg_channel message end in
  {| guild_id := chan_guild ch;
     channel_id := chan_id ch;
     message_id := msg_id message;
     amount := amount0;
     end_time := end_time0;
     entrants := [] |}.

(** ** Effects, exceptions and the collaborators' answers *)

Inductive Effect :=
| DbFind                          (* airdrops.find() *)
| DbInsertOne (d : Doc)           (* airdrops.insert_one(d) *)
| DbDeleteOne (id : Z)            (* airdrops.delete_one({'_id': id}) *)
| StateSet (id : Z) (a : Airdrop) (* self._state[id] = a *)
| StateDel (id : Z)               (* del self._state[id] *)
| StateUpdate                     (* self._state.update(...) *)
| AirdropResolve (a : Airdrop)    (* airdrop.resolve(self.bot) *)
| PartialUnpin (c m : Z)          (* get_channel(c).get_partial_message(m).unpin *)
| FetchMessage (c m : Z)          (* fetch_channel(c).fetch_message(m) *)
| MessageUnpin (m : Z)
| MessageEdit (m : Z)
| MessagePin (m : Z)
| CanAfford (v : Z)               (* crypto.can_afford(v) *)
| InsufficientFunds (amount0 : Z) (* insufficient_funds(ctx, amount) *)
| CtxRespond
| ChannelSend (c : Z)
| ViewAddItem (a : Airdrop)       (* view.add_item(AirdropButton(airdrop)) *)
| LogInfo (m : Z)                 (* logger.log(INFO, ...) *)
| EmbedTimestamp (t : Z)          (* datetime.fromtimestamp(t), line 84 *)
| BotAvatarUrl                    (* ctx.bot.user.avatar.url, line 85 *)
| AuthorAvatarUrl (m : Z).        (* message.author.avatar.url, line 102 *)

Inductive Exn :=
| AirdropNotFound (r : Ref)
| KeyError (k : Z)
| DuplicateKeyError (k : Z)
| ExternalError (e : Effect).

Inductive Res (A : Type) :=
| Ok (a : A)
| Raise (x : Exn).
Arguments Ok {A} a.
Arguments Raise {A} x.

(** What the outside answers during one operation: the clock, the crypto
    backend, which awaited calls return ([ext_ok]) and the id Discord
    gives to a message sent to a channel. *)
Record World := mkWorld {
  now : Z;
  can_afford : Z -> bool;
  to_contract_value : Z -> Z;
  ext_ok : Effect -> bool;
  sent_id : Z -> Z
}.

(** The manager's cache, the collection, and the calls made so far. *)
Record MState := mkState {
  _state : Dict.t Airdrop;
  airdrops_db : list Doc;
  trace : list Effect
}.

(** ** The collection *)

Definition has_id (k : Z) (db : list Doc) : bool :=
  existsb (fun d => _id d =? k) db.

(** [insert_one] refuses a document whose [_id] is taken (MongoDB's
    duplicate key error, the specification's [DuplicateId]). *)
Definition insert_one (d : Doc) (db : list Doc) : option (list Doc) :=
  if has_id (_id d) db then None else Some (db ++ [d]).

(** [delete_one({'_id': k})] deletes the first match, if any. *)
Fixpoint delete_one (k : Z) (db : list Doc) : list Doc :=
  match db with
  | [] => []
  | d :: db' => if _id d =? k then db' else d :: delete_one k db'
  end.

(** ** A state and exception monad *)

Definition M (A : Type) := World -> MState -> Res A * MState.

Definition ret {A} (a : A) : M A := fun _ s => (Ok a, s).

Definition bind {A B} (m : M A) (f : A -> M B) : M B :=
  fun w s =>
    match m w s with
    | (Ok a, s') => f a w s'
    | (Raise x, s') => (Raise x, s')
    end.

Definition raise {A} (x : Exn) : M A := fun _ s => (Raise x, s).

Declare Scope m_scope.
Delimit Scope m_scope with m.
Notation "x <- c1 ;; c2" := (bind c1 (fun x => c2))
  (at level 61, c1 at next level, right associativity) : m_scope.
Notation "c1 ;; c2" := (bind c1 (fun _ => c2))
  (at level 61, right associativity) : m_scope.
Local Open Scope m_scope.

Definition ask : M World := fun w s => (Ok w, s).
Definition get_state : M (Dict.t Airdrop) := fun _ s => (Ok (_state s), s).
Definition get_db : M (list Doc) := fun _ s => (Ok (airdrops_db s), s).

Definition record (e : Effect) (s : MState) : MState :=
  {| _state := _state s; airdrops_db := airdrops_db s; trace := trace s ++ [e] |}.

Definition put_state (c : Dict.t Airdrop) : M unit :=
  fun _ s => (Ok tt, {| _state := c; airdrops_db := airdrops_db s; trace := trace s |}).

Definition put_db (db : list Doc) : M unit :=
  fun _ s => (Ok tt, {| _state := _state s; airdrops_db := db; trace := trace s |}).

(** A step of the manager itself: recorded, cannot fail. *)
Definition emit (e : Effect) : M unit := fun _ s => (Ok tt, record e s).

(** An awaited call on a collaborator: recorded, then it returns or raises. *)
Definition call (e : Effect) : M unit :=
  fun w s => (if ext_ok w e then Ok tt else Raise (ExternalError e), record e s).

(** A step that only reads or builds a value and can raise doing so (an
    attribute of an object that is [None], a timestamp out of range):
    nothing is recorded, the outside decides whether it raises. *)
Definition check (e : Effect) : M unit :=
  fun w s => (if ext_ok w e then Ok tt else Raise (ExternalError e), s).

Fixpoint for_each {A} (xs : list A) (body : A -> M unit) : M unit :=
  match xs with
  | [] => ret tt
  | x :: xs' => body x ;; for_each xs' body
  end.

(** ** The clock-derived properties of an airdrop *)

(** Modelled from the spec: the properties [Airdrop.ended] and
    [Airdrop.ends_in] are in [airdrop.py], which is not part of the sources
    at hand.  [hasEnded] is current time >= [endTime]; [ends_in] is the
    time left until [endTime].  One sweep reads one clock value. *)
Definition ended (w : World) (a : Airdrop) : bool := end_time a <=? now w.

Definition ends_in (w : World) (a : Airdrop) : Z := end_time a - now w.

(** ** AirdropManager *)

(** Lines 22-31. *)
Definition __fetch_db_state : M (list Airdrop) :=
  call DbFind ;;
  db <- get_db ;;
  ret (map airdrop_of_doc db).

(** The collection's [insert_one], line 39. *)
Definition db_insert_one (d : Doc) : M unit :=
  call (DbInsertOne d) ;;
  db <- get_db ;;
  match insert_one d db with
  | Some db' => put_db db'
  | None => raise (DuplicateKeyError (_id d))
  end.

(** The collection's [delete_one], line 48. *)
Definition db_delete_one (k : Z) : M unit :=
  call (DbDeleteOne k) ;;
  db <- get_db ;;
  put_db (delete_one k db).

(** Lines 33-41. *)
Definition _add_from_message (message : Message) (amount0 duration : Z)
    (channel : option TextChannel) : M Airdrop :=
  w <- ask ;;
  let airdrop := from_message message amount0 (now w + duration) channel in
  db_insert_one (to_db_dict airdrop) ;;
  c <- get_state ;;
  put_state (Dict.set (message_id airdrop) airdrop c) ;;
  emit (StateSet (message_id airdrop) airdrop) ;;
  ret airdrop.

(** Line 60: [self._state.get(message_id)] unless the argument is an
    [Airdrop] already, which is then taken as it is. *)
Definition lookup (r : Ref) (c : Dict.t Airdrop) : option Airdrop :=
  match r with
  | ById k => Dict.get k c
  | ByEntity a => Some a
  end.

(** Lines 59-63.  An [Airdrop] instance is a truthy object, so [not ad]
    holds exactly when the dict lookup gave [None]. *)
Definition get_airdrop (r : Ref) : M Airdrop :=
  c <- get_state ;;
  match lookup r c with
  | None => raise (AirdropNotFound r)
  | Some ad => ret ad
  end.

(** [del self._state[k]], line 45. *)
Definition state_del (k : Z) : M unit :=
  c <- get_state ;;
  match Dict.get k c with
  | None => raise (KeyError k)
  | Some _ => put_state (Dict.del k c) ;; emit (StateDel k)
  end.

(** Lines 43-48. *)
Definition _remove (r : Ref) : M unit :=
  airdrop <- get_airdrop r ;;
  state_del (message_id airdrop) ;;
  call (PartialUnpin (channel_id airdrop) (message_id airdrop)) ;;
  db_delete_one (message_id airdrop).

(** Lines 50-51. *)
Definition _fetch : M unit :=
  fetched <- __fetch_db_state ;;
  c <- get_state ;;
  put_state (Dict.update c (Dict.comprehension message_id fetched)) ;;
  emit StateUpdate.

(** Lines 53-54. *)
Definition update : M unit := _fetch.

(** Lines 56-57. *)
Definition setup : M unit := update.

(** Lines 65-91.  The function has no [return] with a value.  Building
    the announcement (lines 81-85) converts [time.time() + duration] to a
    date and reads the bot's avatar, and either can raise before anything
    is sent. *)
Definition new_airdrop (ctx : ApplicationContext) (amount0 duration : Z)
    (channel : option TextChannel) : M unit :=
  w <- ask ;;
  call (CanAfford (to_contract_value w amount0)) ;;
  if negb (can_afford w (to_contract_value w amount0)) then
    call (InsufficientFunds amount0)
  else
    call CtxRespond ;;
    let channel := match channel with Some c => c | None => ctx_channel ctx end in
    check (EmbedTimestamp (now w + duration)) ;;
    check BotAvatarUrl ;;
    call (ChannelSend (chan_id channel)) ;;
    let root := {| msg_id := sent_id w (chan_id channel); msg_channel := channel |} in
    airdrop <- _add_from_message root amount0 duration (Some channel) ;;
    emit (ViewAddItem airdrop) ;;
    call (MessageEdit (msg_id root)) ;;
    call (MessagePin (msg_id root)).

(** Lines 93-103.  [FetchMessage] stands for the two awaits of line 96,
    [fetch_channel] and then [fetch_message].  Line 102 reads the avatar
    of the message's author, which raises when there is none.  Line 101
    converts the clock's own value, which is always a valid date, so it
    is no failure point (unlike line 84, which adds a caller's duration). *)
Definition cancel (r : Ref) : M unit :=
  airdrop <- get_airdrop r ;;
  _remove (ByEntity airdrop) ;;
  call (FetchMessage (channel_id airdrop) (message_id airdrop)) ;;
  call (MessageUnpin (message_id airdrop)) ;;
  check (AuthorAvatarUrl (message_id airdrop)) ;;
  call (MessageEdit (message_id airdrop)).

(** Lines 105-108. *)
Definition resolve (r : Ref) : M unit :=
  airdrop <- get_airdrop r ;;
  call (AirdropResolve airdrop) ;;
  _remove (ByEntity airdrop).

(** Lines 112-115: the airdrops the sweep will resolve. *)
Definition to_resolve (w : World) (c : Dict.t Airdrop) : list Airdrop :=
  filter (fun airdrop => ended w airdrop && (ends_in w airdrop <=? 0))
         (Dict.values c).

(** Lines 117-118: one turn of the second loop. *)
Definition dispatch (ad : Airdrop) : M unit :=
  emit (LogInfo (message_id ad)) ;;
  resolve (ByEntity ad).

(** Lines 110-118. *)
Definition frame : M unit :=
  update ;;
  w <- ask ;;
  c <- get_state ;;
  for_each (to_resolve w c) dispatch.

(** The two terminal transitions of an airdrop. *)
Inductive Terminal := Cancel | Resolve.

Definition terminate (op : Terminal) : Ref -> M unit :=
  match op with
  | Cancel => cancel
  | Resolve => resolve
  end.

(** ** Representation invariants *)

(** A dict has one entry per key, and the manager files every airdrop
    under its own message id (lines 40 and 51). *)
Definition cache_wf (c : Dict.t Airdrop) : Prop :=
  NoDup (Dict.keys c) /\ Forall (fun kv => fst kv = message_id (snd kv)) c.

(** MongoDB keeps [_id] unique in a collection. *)
Definition db_wf (db : list Doc) : Prop := NoDup (map _id db).

(** The message id a reference stands for. *)
Definition the_id (r : Ref) : Z :=
  match r with
  | ById k => k
  | ByEntity a => message_id a
  end.

(** ** Notions used in the statements *)

(** What a successful [_remove] of an entity did. *)
Definition removed (a : Airdrop) (s : MState) : MState :=
  {| _state := Dict.del (message_id a) (_state s);
     airdrops_db := delete_one (message_id a) (airdrops_db s);
     trace := trace s ++ [StateDel (message_id a);
                          PartialUnpin (channel_id a) (message_id a);
                          DbDeleteOne (message_id a)] |}.

(** Every run of [m] takes a state to one related to it by [R], whether
    it returns or raises. *)
Definition respects (R : MState -> MState -> Prop) {A} (m : M A) : Prop :=
  forall w s r s', m w s = (r, s') -> R s s'.

(** [R] is a preorder on states that holds across every recorded call and
    across the removal of an id in [K], from the cache and from the
    collection. *)
Record Compatible (R : MState -> MState -> Prop) (K : Z -> Prop) : Prop := {
  compat_refl : forall s, R s s;
  compat_trans : forall s1 s2 s3, R s1 s2 -> R s2 s3 -> R s1 s3;
  compat_record : forall e s, R s (record e s);
  compat_del : forall k s, K k -> Dict.get k (_state s) <> None ->
    R s {| _state := Dict.del k (_state s); airdrops_db := airdrops_db s; trace := trace s |};
  compat_delete_one : forall k s, K k ->
    R s {| _state := _state s; airdrops_db := delete_one k (airdrops_db s); trace := trace s |}
}.

(** [K] holds of every airdrop id the reference [r] can stand for. *)
Definition may_remove (K : Z -> Prop) (r : Ref) : Prop :=
  forall c a, lookup r c = Some a -> K (message_id a).

(** The cache line 51 leaves when [find] returned the documents [db]. *)
Definition refreshed (c : Dict.t Airdrop) (db : list Doc) : Dict.t Airdrop :=
  Dict.update c (Dict.comprehension message_id (map airdrop_of_doc db)).

(** Both representation invariants. *)
Definition inv (s : MState) : Prop := cache_wf (_state s) /\ db_wf (airdrops_db s).

Definition keeps_inv (s s' : MState) : Prop := inv s -> inv s'.

(** The calls [resolve] adds to the trace when everything returns. *)
Definition resolve_calls (a : Airdrop) : list Effect :=
  [AirdropResolve a; StateDel (message_id a);
   PartialUnpin (channel_id a) (message_id a); DbDeleteOne (message_id a)].

(** The trace entries that take an airdrop out of the cache or the
    collection. *)
Definition removal (e : Effect) : bool :=
  match e with
  | StateDel _ | DbDeleteOne _ => true
  | _ => false
  end.

(** The same world with another answer of the backend's [can_afford]. *)
Definition with_can_afford (f : Z -> bool) (w : World) : World :=
  {| now := now w; can_afford := f; to_contract_value := to_contract_value w;
     ext_ok := ext_ok w; sent_id := sent_id w |}.

(** The cache and trace once the refresh of a sweep has gone through. *)
Definition after_update (s : MState) : MState :=
  {| _state := refreshed (_state s) (airdrops_db s);
     airdrops_db := airdrops_db s;
     trace := trace s ++ [DbFind; StateUpdate] |}.

(** The calls one turn of the second loop can make for [a]. *)
Definition dispatch_calls (a : Airdrop) : list Effect :=
  LogInfo (message_id a) :: resolve_calls a.

(** The state after one turn of the second loop in which every call
    returned. *)
Definition dispatched (s : MState) (a : Airdrop) : MState :=
  removed a (record (AirdropResolve a) (record (LogInfo (message_id a)) s)).

(** The cache entry and the documents of id [k] are the same in both
    states. *)
Definition same_at (k : Z) (s s' : MState) : Prop :=
  Dict.get k (_state s') = Dict.get k (_state s) /\
  (forall d, _id d = k -> (In d (airdrops_db s') <-> In d (airdrops_db s))).

(** Error isolation as the specification words it: every airdrop due in
    a pass has [resolve] attempted on it, whatever happened to the others. *)
Definition attempts_every_due_event (w : World) (s : MState) : Prop :=
  forall a, In a (to_resolve w (_state (after_update s))) ->
            In (AirdropResolve a) (trace (snd (frame w s))).

(** The single-resolution guarantee as the specification words it: once
    [op1] on [r] has returned, a later [op2] through any reference [r'] to
    the same id raises [AirdropNotFound] and changes nothing. *)
Definition later_call_not_found (op1 op2 : Terminal) (r r' : Ref)
    (w w' : World) (s : MState) : Prop :=
  forall s', terminate op1 r w s = (Ok tt, s') ->
             the_id r' = the_id r ->
             terminate op2 r' w' s' = (Raise (AirdropNotFound r'), s').

(** ** The manager as its callers use it *)

(** Lines 17-20: a new manager starts with an empty [_state]; [db] is what
    the collection holds at that time. *)
Definition __init__ (db : list Doc) : MState :=
  {| _state := []; airdrops_db := db; trace := [] |}.

(** The public entry points of the class. *)
Inductive Op :=
| OpSetup
| OpUpdate
| OpFrame
| OpNewAirdrop (ctx : ApplicationContext) (amount0 duration : Z)
    (channel : option TextChannel)
| OpCancel (r : Ref)
| OpResolve (r : Ref).

Definition run_op (o : Op) : M unit :=
  match o with
  | OpSetup => setup
  | OpUpdate => update
  | OpFrame => frame
  | OpNewAirdrop ctx amount0 duration channel =>
      new_airdrop ctx amount0 duration channel
  | OpCancel r => cancel r
  | OpResolve r => resolve r
  end.

(** A series of calls, each with the answers the outside gives during it.
    A call that raises hands the exception to its own caller; the manager
    object and the next call see the state it left. *)
Fixpoint run_ops (calls : list (World * Op)) (s : MState) : MState :=
  match calls with
  | [] => s
  | (w, o) :: calls' => run_ops calls' (snd (run_op o w s))
  end.

(** Every cached id has a document in the collection. *)
Definition cached_stored (s : MState) : Prop :=
  forall k, Dict.get k (_state s) <> None -> has_id k (airdrops_db s) = true.

(** The calls [cancel] adds to the trace when everything returns. *)
Definition cancel_calls (a : Airdrop) : list Effect :=
  [StateDel (message_id a); PartialUnpin (channel_id a) (message_id a);
   DbDeleteOne (message_id a); FetchMessage (channel_id a) (message_id a);
   MessageUnpin (message_id a); MessageEdit (message_id a)].

(** The channel [new_airdrop] posts to, line 80, and the anchor message
    Discord returns for it, line 87. *)
Definition target_channel (ctx : ApplicationContext)
    (channel : option TextChannel) : TextChannel :=
  match channel with Some c => c | None => ctx_channel ctx end.

Definition anchor (w : World) (ch : TextChannel) : Message :=
  {| msg_id := sent_id w (chan_id ch); msg_channel := ch |}.

(** Running [m] keeps [P], whether it returns or raises. *)
Definition preserves (P : MState -> Prop) {A} (m : M A) : Prop :=
  forall w s r s', m w s = (r, s') -> P s -> P s'.

(** ** Sample data *)

Module Sample.
Definition ad1 : Airdrop := mkAirdrop 1 10 100 50 1000 [5; 6].
Definition ad2 : Airdrop := mkAirdrop 1 10 200 70 2000 [].
Definition ad3 : Airdrop := mkAirdrop 1 11 300 20 900 [8].

(** Every collaborator answers, at time [t]. *)
Definition calm (t : Z) : World :=
  mkWorld t (fun _ => true) (fun v => v) (fun _ => true) (fun _ => 400).

(** The backend fails while resolving the airdrop of message [m]. *)
Definition failing (t m : Z) : World :=
  mkWorld t (fun _ => true) (fun v => v)
    (fun e => match e with
              | AirdropResolve a => negb (message_id a =? m)
              | _ => true
              end)
    (fun _ => 400).

(** The backend cannot afford anything. *)
Definition broke (t : Z) : World :=
  mkWorld t (fun _ => false) (fun v => v) (fun _ => true) (fun _ => 400).

Definition s12 : MState :=
  mkState [(100, ad1); (200, ad2)] [to_db_dict ad1; to_db_dict ad2] [].

Definition s312 : MState :=
  mkState [(300, ad3); (100, ad1); (200, ad2)]
          [to_db_dict ad3; to_db_dict ad1; to_db_dict ad2] [].

(** Discord refuses to fetch messages. *)
Definition mute (t : Z) : World :=
  mkWorld t (fun _ => true) (fun v => v)
    (fun e => match e with
              | FetchMessage _ _ => false
              | _ => true
              end)
    (fun _ => 400).

(** The unpin inside [_remove] raises. *)
Definition pinless (t : Z) : World :=
  mkWorld t (fun _ => true) (fun v => v)
    (fun e => match e with
              | PartialUnpin _ _ => false
              | _ => true
              end)
    (fun _ => 400).

(** The final pin of [new_airdrop] raises. *)
Definition unpinnable (t : Z) : World :=
  mkWorld t (fun _ => true) (fun v => v)
    (fun e => match e with
              | MessagePin _ => false
              | _ => true
              end)
    (fun _ => 400).

(** The bot has no avatar. *)
Definition faceless (t : Z) : World :=
  mkWorld t (fun _ => true) (fun v => v)
    (fun e => match e with
              | BotAvatarUrl => false
              | _ => true
              end)
    (fun _ => 400).

(** A sample invocation context and call series. *)
Definition ctx0 : ApplicationContext := mkCtx (mkChannel 10 1) 77.

Definition calls0 : list (World * Op) :=
  [(calm 1000, OpSetup);
   (calm 1000, OpNewAirdrop ctx0 100 60 None);
   (failing 1200 100, OpFrame);
   (calm 1300, OpCancel (ById 200));
   (calm 1400, OpResolve (ByEntity ad1))].

(** [ad3] is cached but no longer in the collection. *)
Definition stale : MState := mkState [(300, ad3)] [to_db_dict ad1] [].

End Sample.

(** * Properties *)

(** ** The dict operations *)

Module DictFacts.
Section Facts.
Context {V : Type}.
Implicit Types (d : Dict.t V) (k : Z) (v : V).

Lemma get_set_same k v d : Dict.get k (Dict.set k v d) = Some v.
Proof.
  induction d as [|[k' v'] d IH]; simpl.
  - now rewrite Z.eqb_refl.
  - destruct (k =? k') eqn:E; simpl; rewrite ?Z.eqb_refl, ?E; auto.
Qed.

Lemma get_set_other k k' v d :
  k <> k' -> Dict.get k' (Dict.set k v d) = Dict.get k' d.
Proof.
  intros Hne. induction d as [|[k0 v0] d IH]; simpl.
  - destruct (k' =? k) eqn:E; auto. apply Z.eqb_eq in E. congruence.
  - destruct (k =? k0) eqn:E; simpl.
    + apply Z.eqb_eq in E. subst k0.
      destruct (k' =? k) eqn:E'; auto. apply Z.eqb_eq in E'. congruence.
    + now rewrite IH.
Qed.

Lemma get_del_same k d : Dict.get k (Dict.del k d) = None.
Proof.
  unfold Dict.del. induction d as [|[k' v'] d IH]; simpl; auto.
  destruct (k =? k') eqn:E; simpl; auto. now rewrite E.
Qed.

Lemma get_del_other k k' d :
  k <> k' -> Dict.get k' (Dict.del k d) = Dict.get k' d.
Proof.
  intros Hne. unfold Dict.del. induction d as [|[k0 v0] d IH]; simpl; auto.
  destruct (k =? k0) eqn:E; simpl.
  - apply Z.eqb_eq in E. subst k0.
    destruct (k' =? k) eqn:E'; auto. apply Z.eqb_eq in E'. congruence.
  - now rewrite IH.
Qed.

Lemma get_none_keys k d : Dict.get k d = None <-> ~ In k (Dict.keys d).
Proof.
  induction d as [|[k' v'] d IH]; simpl.
  - tauto.
  - destruct (k =? k') eqn:E.
    + apply Z.eqb_eq in E. split; [discriminate | intros H; exfalso; auto].
    + apply Z.eqb_neq in E. rewrite IH. intuition congruence.
Qed.

Lemma get_in k v d : Dict.get k d = Some v -> In (k, v) d.
Proof.
  induction d as [|[k' v'] d IH]; simpl; [discriminate|].
  destruct (k =? k') eqn:E; auto.
  apply Z.eqb_eq in E. intros [= ->]. subst. now left.
Qed.

Lemma in_get k v d : NoDup (Dict.keys d) -> In (k, v) d -> Dict.get k d = Some v.
Proof.
  induction d as [|[k' v'] d IH]; simpl; [tauto|].
  intros Hnd [Heq|Hin]; inversion Hnd as [|? ? Hnotin Hnd']; subst.
  - inversion Heq; subst. now rewrite Z.eqb_refl.
  - destruct (k =? k') eqn:E; auto.
    apply Z.eqb_eq in E. subst k'. exfalso. apply Hnotin.
    change k with (fst (k, v)). now apply in_map.
Qed.

Lemma keys_set_in k v d : In k (Dict.keys d) -> Dict.keys (Dict.set k v d) = Dict.keys d.
Proof.
  induction d as [|[k' v'] d IH]; simpl; [tauto|].
  intros H. destruct (k =? k') eqn:E; simpl.
  - apply Z.eqb_eq in E. now subst.
  - f_equal. apply IH. destruct H as [H|H]; auto.
    apply Z.eqb_neq in E. congruence.
Qed.

Lemma keys_set_notin k v d :
  ~ In k (Dict.keys d) -> Dict.keys (Dict.set k v d) = Dict.keys d ++ [k].
Proof.
  induction d as [|[k' v'] d IH]; simpl; auto.
  intros H. destruct (k =? k') eqn:E; simpl.
  - apply Z.eqb_eq in E. subst. exfalso; auto.
  - f_equal. apply IH. auto.
Qed.

Lemma nodup_set k v d : NoDup (Dict.keys d) -> NoDup (Dict.keys (Dict.set k v d)).
Proof.
  intros Hnd. destruct (in_dec Z.eq_dec k (Dict.keys d)) as [Hin|Hnin].
  - now rewrite keys_set_in.
  - rewrite keys_set_notin by assumption.
    apply NoDup_app; auto.
    + constructor; [simpl; tauto | constructor].
    + intros x Hx [<-|[]]. auto.
Qed.

Lemma in_set k v d kv : In kv (Dict.set k v d) -> kv = (k, v) \/ In kv d.
Proof.
  induction d as [|[k' v'] d IH]; simpl.
  - intros [<-|[]]; auto.
  - destruct (k =? k'); simpl; intros [<-|H]; auto.
    destruct (IH H); auto.
Qed.

Lemma nodup_del k d : NoDup (Dict.keys d) -> NoDup (Dict.keys (Dict.del k d)).
Proof.
  unfold Dict.del, Dict.keys. induction d as [|[k' v'] d IH]; simpl; auto.
  intros Hnd. inversion Hnd as [|? ? Hnotin Hnd']; subst.
  destruct (k =? k'); simpl; auto.
  constructor; auto.
  intros Hin. apply Hnotin. apply in_map_iff in Hin as [x [Hx Hin]].
  apply filter_In in Hin as [Hin _]. apply in_map_iff. eauto.
Qed.

(** Folding [set] over a list, as the comprehension and [update] do. *)
Section Fold.
Context {X : Type} (f : X -> Z) (g : X -> V).

Let step := fun (acc : Dict.t V) (x : X) => Dict.set (f x) (g x) acc.

Lemma fold_set_other k xs d :
  ~ In k (map f xs) -> Dict.get k (fold_left step xs d) = Dict.get k d.
Proof.
  revert d. induction xs as [|x xs IH]; simpl; intros d Hk; auto.
  rewrite IH by tauto. apply get_set_other. intros E. apply Hk. now left.
Qed.

Lemma fold_set_keeps k xs d :
  Dict.get k d <> None -> Dict.get k (fold_left step xs d) <> None.
Proof.
  revert d. induction xs as [|x xs IH]; simpl; intros d Hk; auto.
  apply IH. unfold step. destruct (Z.eq_dec (f x) k) as [<-|Hne].
  - now rewrite get_set_same.
  - now rewrite get_set_other.
Qed.

Lemma fold_set_in x xs d :
  NoDup (map f xs) -> In x xs ->
  Dict.get (f x) (fold_left step xs d) = Some (g x).
Proof.
  revert d. induction xs as [|y xs IH]; simpl; intros d Hnd Hin; [tauto|].
  inversion Hnd as [|? ? Hnotin Hnd']; subst.
  destruct Hin as [->|Hin].
  - rewrite fold_set_other by assumption. apply get_set_same.
  - now apply IH.
Qed.

Lemma fold_set_nodup xs d :
  NoDup (Dict.keys d) -> NoDup (Dict.keys (fold_left step xs d)).
Proof.
  revert d. induction xs as [|x xs IH]; simpl; intros d Hnd; auto.
  apply IH. now apply nodup_set.
Qed.

Lemma fold_set_forall (P : Z * V -> Prop) xs d :
  (forall x, In x xs -> P (f x, g x)) -> Forall P d ->
  Forall P (fold_left step xs d).
Proof.
  revert d. induction xs as [|x xs IH]; simpl; intros d Hxs Hd; auto.
  apply IH; auto. apply Forall_forall. intros kv Hin.
  apply in_set in Hin as [->|Hin]; auto.
  rewrite Forall_forall in Hd. auto.
Qed.
End Fold.
End Facts.
End DictFacts.

(** ** The collection *)

Lemma has_id_false_iff k db : has_id k db = false <-> ~ In k (map _id db).
Proof.
  unfold has_id. induction db as [|d db IH]; simpl; [intuition|].
  rewrite orb_false_iff, IH, Z.eqb_neq. tauto.
Qed.

Lemma delete_one_ids_subset k k' db :
  In k' (map _id (delete_one k db)) -> In k' (map _id db).
Proof.
  induction db as [|d db IH]; simpl; auto.
  destruct (_id d =? k); simpl; tauto.
Qed.

Lemma delete_one_wf k db : db_wf db -> db_wf (delete_one k db).
Proof.
  unfold db_wf. induction db as [|d db IH]; simpl; auto.
  intros Hnd. inversion Hnd as [|? ? Hnotin Hnd']; subst.
  destruct (_id d =? k); simpl; auto.
  constructor; auto. intros Hin. apply Hnotin. eapply delete_one_ids_subset; eauto.
Qed.

Lemma delete_one_gone k db : db_wf db -> has_id k (delete_one k db) = false.
Proof.
  unfold db_wf. rewrite has_id_false_iff.
  induction db as [|d db IH]; simpl; auto.
  intros Hnd. inversion Hnd as [|? ? Hnotin Hnd']; subst.
  destruct (_id d =? k) eqn:E; simpl.
  - apply Z.eqb_eq in E. now subst.
  - apply Z.eqb_neq in E. intros [?|?]; [auto | now apply IH].
Qed.

Lemma delete_one_other k d db :
  _id d <> k -> In d db -> In d (delete_one k db).
Proof.
  intros Hne. induction db as [|d' db IH]; simpl; auto.
  destruct (_id d' =? k) eqn:E; simpl.
  - apply Z.eqb_eq in E. intros [->|?]; [congruence | auto].
  - intros [->|?]; auto.
Qed.

Lemma insert_one_wf d db db' : db_wf db -> insert_one d db = Some db' -> db_wf db'.
Proof.
  unfold insert_one, db_wf. destruct (has_id (_id d) db) eqn:E; [discriminate|].
  intros Hnd [= <-]. rewrite map_app. simpl.
  apply has_id_false_iff in E.
  apply NoDup_app; auto.
  - constructor; [simpl; tauto | constructor].
  - intros x Hx [<-|[]]. auto.
Qed.

(** ** Running the manager *)

Ltac run :=
  cbv [frame dispatch resolve cancel _remove get_airdrop state_del update
       _fetch __fetch_db_state _add_from_message new_airdrop
       db_insert_one db_delete_one call check emit bind ret raise ask
       get_state put_state get_db put_db record]; simpl.

Ltac split_run :=
  repeat match goal with
  | H : context [if ext_ok ?w ?e then _ else _] |- _ => destruct (ext_ok w e) eqn:?
  | H : context [match Dict.get ?k ?c with _ => _ end] |- _ => destruct (Dict.get k c) eqn:?
  | H : context [match lookup ?r ?c with _ => _ end] |- _ => destruct (lookup r c) eqn:?
  | H : (_, _) = (_, _) |- _ => inversion H; clear H; subst; simpl in *
  end; try discriminate.

Lemma app_cons_assoc {A} (l : list A) x l' : (l ++ [x]) ++ l' = l ++ x :: l'.
Proof. now rewrite <- app_assoc. Qed.

Lemma _remove_entity_inv a w s s' :
  _remove (ByEntity a) w s = (Ok tt, s') ->
  Dict.get (message_id a) (_state s) <> None /\
  ext_ok w (PartialUnpin (channel_id a) (message_id a)) = true /\
  ext_ok w (DbDeleteOne (message_id a)) = true /\
  s' = removed a s.
Proof.
  run. intros H. split_run.
  repeat split; try congruence.
  unfold removed. simpl. now rewrite !app_cons_assoc.
Qed.

Lemma _remove_entity_ok a w s :
  Dict.get (message_id a) (_state s) <> None ->
  ext_ok w (PartialUnpin (channel_id a) (message_id a)) = true ->
  ext_ok w (DbDeleteOne (message_id a)) = true ->
  _remove (ByEntity a) w s = (Ok tt, removed a s).
Proof.
  run. intros Hin H1 H2.
  destruct (Dict.get (message_id a) (_state s)); [|congruence].
  simpl. rewrite H1, H2. unfold removed. simpl. now rewrite !app_cons_assoc.
Qed.

Lemma resolve_inv r w s s' :
  resolve r w s = (Ok tt, s') ->
  exists a, lookup r (_state s) = Some a /\
            Dict.get (message_id a) (_state s) <> None /\
            ext_ok w (AirdropResolve a) = true /\
            s' = removed a (record (AirdropResolve a) s).
Proof.
  unfold resolve, bind at 1. unfold get_airdrop, bind at 1, get_state.
  destruct (lookup r (_state s)) as [a|] eqn:L; simpl; [|discriminate].
  unfold bind at 1, call. destruct (ext_ok w (AirdropResolve a)) eqn:E; [|discriminate].
  intros H. apply _remove_entity_inv in H as (H1 & _ & _ & ->).
  exists a. auto.
Qed.

Lemma cancel_inv r w s s' :
  cancel r w s = (Ok tt, s') ->
  exists a, lookup r (_state s) = Some a /\
            Dict.get (message_id a) (_state s) <> None /\
            _state s' = Dict.del (message_id a) (_state s) /\
            airdrops_db s' = delete_one (message_id a) (airdrops_db s) /\
            trace s' = trace (removed a s) ++
                       [FetchMessage (channel_id a) (message_id a);
                        MessageUnpin (message_id a); MessageEdit (message_id a)].
Proof.
  unfold cancel, bind at 1. unfold get_airdrop, bind at 1, get_state.
  destruct (lookup r (_state s)) as [a|] eqn:L; simpl; [|discriminate].
  unfold bind at 1.
  destruct (_remove (ByEntity a) w s) as [[[]|x] s1] eqn:R; [|discriminate].
  apply _remove_entity_inv in R as (H1 & _ & _ & ->).
  run. intros H. split_run.
  exists a. repeat split; auto. now rewrite !app_cons_assoc.
Qed.

(** ** Relations every step of an operation respects *)

Lemma get_airdrop_inv r w s a s' :
  get_airdrop r w s = (Ok a, s') -> lookup r (_state s) = Some a /\ s' = s.
Proof.
  unfold get_airdrop, bind, get_state, raise, ret.
  destruct (lookup r (_state s)); [|discriminate]. now intros [= <- <-].
Qed.

Section Respects.
Context {R : MState -> MState -> Prop} {K : Z -> Prop} (HR : Compatible R K).

Let R_refl := compat_refl R K HR.
Let R_trans := compat_trans R K HR.
Let R_record := compat_record R K HR.
Let R_del := compat_del R K HR.
Let R_delete_one := compat_delete_one R K HR.

Lemma respects_pure {A} (m : M A) :
  (forall w s, snd (m w s) = s) -> respects R m.
Proof. intros H w s r s' E. specialize (H w s). rewrite E in H. simpl in H. now subst. Qed.

Lemma respects_bind_val {A B} (m : M A) (f : A -> M B) :
  respects R m ->
  (forall a, (exists w s s', m w s = (Ok a, s')) -> respects R (f a)) ->
  respects R (bind m f).
Proof.
  intros Hm Hf w s r s'. unfold bind.
  destruct (m w s) as [[a|x] s1] eqn:E.
  - intros E'. eapply R_trans; [eapply Hm | eapply Hf]; eauto.
  - intros [= <- <-]. eapply Hm; eauto.
Qed.

Lemma respects_bind {A B} (m : M A) (f : A -> M B) :
  respects R m -> (forall a, respects R (f a)) -> respects R (bind m f).
Proof. intros Hm Hf. apply respects_bind_val; auto. Qed.

Lemma respects_for_each {A} (xs : list A) (body : A -> M unit) :
  (forall x, In x xs -> respects R (body x)) -> respects R (for_each xs body).
Proof.
  induction xs as [|x xs IH]; simpl; intros Hb.
  - apply respects_pure. reflexivity.
  - apply respects_bind; auto.
Qed.

Lemma respects_call e : respects R (call e).
Proof. intros w s r s'. unfold call. intros [= <- <-]. auto. Qed.

Lemma respects_emit e : respects R (emit e).
Proof. intros w s r s'. unfold emit. intros [= <- <-]. auto. Qed.

Lemma respects_check e : respects R (check e).
Proof. apply respects_pure. reflexivity. Qed.

Lemma respects_get_airdrop r : respects R (get_airdrop r).
Proof.
  apply respects_pure. intros w s. unfold get_airdrop, bind, get_state, raise, ret.
  now destruct (lookup r (_state s)).
Qed.

Lemma respects_state_del k : K k -> respects R (state_del k).
Proof.
  intros Hk w s r s'. unfold state_del, bind, get_state.
  destruct (Dict.get k (_state s)) eqn:E.
  - unfold put_state, emit. intros [= <- <-].
    eapply R_trans; [apply (R_del k s); congruence | apply R_record].
  - intros [= <- <-]. auto.
Qed.

Lemma respects_db_delete_one k : K k -> respects R (db_delete_one k).
Proof.
  intros Hk.
  unfold db_delete_one. apply respects_bind; [apply respects_call|]. intros _.
  intros w s r s'. unfold bind, get_db, put_db. intros [= <- <-]. now apply R_delete_one.
Qed.

Lemma may_remove_entity a : K (message_id a) -> may_remove K (ByEntity a).
Proof. intros Hk c a'. simpl. now intros [= <-]. Qed.

Lemma respects__remove r : may_remove K r -> respects R (_remove r).
Proof.
  intros Hr.
  unfold _remove. apply respects_bind_val; [apply respects_get_airdrop|].
  intros a (w & s & s' & E). apply get_airdrop_inv in E as [E _]. apply Hr in E.
  apply respects_bind; [now apply respects_state_del|]. intros _.
  apply respects_bind; [apply respects_call|]. intros _.
  now apply respects_db_delete_one.
Qed.

Lemma respects_resolve r : may_remove K r -> respects R (resolve r).
Proof.
  intros Hr.
  unfold resolve. apply respects_bind_val; [apply respects_get_airdrop|].
  intros a (w & s & s' & E). apply get_airdrop_inv in E as [E _]. apply Hr in E.
  apply respects_bind; [apply respects_call|]. intros _.
  now apply respects__remove, may_remove_entity.
Qed.

Lemma respects_cancel r : may_remove K r -> respects R (cancel r).
Proof.
  intros Hr.
  unfold cancel. apply respects_bind_val; [apply respects_get_airdrop|].
  intros a (w & s & s' & E). apply get_airdrop_inv in E as [E _]. apply Hr in E.
  apply respects_bind; [now apply respects__remove, may_remove_entity|]. intros _.
  repeat (apply respects_bind;
          [first [apply respects_call | apply respects_check]|]; intros _).
  apply respects_call.
Qed.

Lemma respects_dispatch a : K (message_id a) -> respects R (dispatch a).
Proof.
  intros Hk.
  unfold dispatch. apply respects_bind; [apply respects_emit|]. intros _.
  now apply respects_resolve, may_remove_entity.
Qed.
End Respects.

(** ** The refresh of lines 50-51 *)

Lemma _fetch_run w s :
  _fetch w s =
  if ext_ok w DbFind then
    (Ok tt, {| _state := refreshed (_state s) (airdrops_db s);
               airdrops_db := airdrops_db s;
               trace := trace s ++ [DbFind; StateUpdate] |})
  else (Raise (ExternalError DbFind), record DbFind s).
Proof.
  run. destruct (ext_ok w DbFind); simpl; auto.
  now rewrite app_cons_assoc.
Qed.

Lemma ids_of_fetched db : map message_id (map airdrop_of_doc db) = map _id db.
Proof. rewrite map_map. reflexivity. Qed.

Lemma comprehension_wf xs : cache_wf (Dict.comprehension message_id xs).
Proof.
  unfold Dict.comprehension. split.
  - apply (DictFacts.fold_set_nodup message_id (fun x => x)). constructor.
  - apply (DictFacts.fold_set_forall message_id (fun x => x)
             (fun kv => fst kv = message_id (snd kv))); auto.
Qed.

Lemma comprehension_absent k xs :
  ~ In k (map message_id xs) -> Dict.get k (Dict.comprehension message_id xs) = None.
Proof.
  intros H. unfold Dict.comprehension.
  now rewrite (DictFacts.fold_set_other message_id (fun x => x)).
Qed.

Lemma comprehension_present x xs :
  NoDup (map message_id xs) -> In x xs ->
  Dict.get (message_id x) (Dict.comprehension message_id xs) = Some x.
Proof.
  intros Hnd Hin. unfold Dict.comprehension.
  now rewrite (DictFacts.fold_set_in message_id (fun x => x) x).
Qed.

Lemma refreshed_absent k c db :
  has_id k db = false -> Dict.get k (refreshed c db) = Dict.get k c.
Proof.
  intros H. apply has_id_false_iff in H. unfold refreshed, Dict.update.
  apply (DictFacts.fold_set_other fst snd).
  apply DictFacts.get_none_keys, comprehension_absent.
  now rewrite ids_of_fetched.
Qed.

Lemma refreshed_present d c db :
  db_wf db -> In d db -> Dict.get (_id d) (refreshed c db) = Some (airdrop_of_doc d).
Proof.
  intros Hwf Hin. unfold refreshed, Dict.update.
  apply (DictFacts.fold_set_in fst snd (_id d, airdrop_of_doc d)).
  - apply comprehension_wf.
  - apply DictFacts.get_in.
    apply (comprehension_present (airdrop_of_doc d)).
    + now rewrite ids_of_fetched.
    + now apply in_map.
Qed.

Lemma refreshed_keeps k c db :
  Dict.get k c <> None -> Dict.get k (refreshed c db) <> None.
Proof. apply (DictFacts.fold_set_keeps fst snd). Qed.

Lemma refreshed_wf c db : cache_wf c -> cache_wf (refreshed c db).
Proof.
  intros [Hnd Hkey]. unfold refreshed, Dict.update. split.
  - now apply (DictFacts.fold_set_nodup fst snd).
  - apply (DictFacts.fold_set_forall fst snd (fun kv => fst kv = message_id (snd kv))); auto.
    intros kv Hin. destruct (comprehension_wf (map airdrop_of_doc db)) as [_ H].
    rewrite Forall_forall in H. simpl. now apply H.
Qed.

(** ** Reachable states are well formed *)

Lemma cache_wf_key k a c : cache_wf c -> Dict.get k c = Some a -> message_id a = k.
Proof.
  intros [_ H] G. apply DictFacts.get_in in G.
  rewrite Forall_forall in H. symmetry. exact (H _ G).
Qed.

Lemma cache_wf_del k c : cache_wf c -> cache_wf (Dict.del k c).
Proof.
  intros [Hnd Hkey]. split.
  - now apply DictFacts.nodup_del.
  - rewrite Forall_forall in *. intros kv Hin. apply filter_In in Hin as [Hin _]. auto.
Qed.

Lemma cache_wf_set a c : cache_wf c -> cache_wf (Dict.set (message_id a) a c).
Proof.
  intros [Hnd Hkey]. split.
  - now apply DictFacts.nodup_set.
  - rewrite Forall_forall in *. intros kv Hin.
    apply DictFacts.in_set in Hin as [->|Hin]; auto.
Qed.

Lemma cache_wf_lookup r a c : cache_wf c -> lookup r c = Some a -> message_id a = the_id r.
Proof.
  destruct r as [k|a']; simpl; intros Hwf H.
  - eapply cache_wf_key; eauto.
  - now inversion H.
Qed.

Section Invariant.
Let any_id : Z -> Prop := fun _ => True.

Lemma keeps_inv_compatible : Compatible keeps_inv any_id.
Proof.
  split; unfold keeps_inv.
  - auto.
  - auto.
  - now intros e s H.
  - intros k s _ _ [H1 H2]. split; simpl; [now apply cache_wf_del | assumption].
  - intros k s _ [H1 H2]. split; simpl; [assumption | now apply delete_one_wf].
Qed.

Let HI := keeps_inv_compatible.

Lemma inv_resolve r : respects keeps_inv (resolve r).
Proof. apply (respects_resolve HI). now intros c a _. Qed.

Lemma inv_cancel r : respects keeps_inv (cancel r).
Proof. apply (respects_cancel HI). now intros c a _. Qed.

Lemma inv_update : respects keeps_inv update.
Proof.
  intros w s r s'. unfold update. rewrite _fetch_run.
  destruct (ext_ok w DbFind); intros [= <- <-] [H1 H2]; split; simpl; auto.
  now apply refreshed_wf.
Qed.

Lemma inv__add_from_message m a d c : respects keeps_inv (_add_from_message m a d c).
Proof.
  intros w s r s'. run.
  destruct (ext_ok w _); [|now intros [= <- <-]].
  destruct (insert_one _ (airdrops_db s)) as [db'|] eqn:E; simpl;
  intros [= <- <-] [H1 H2]; split; simpl; auto.
  - apply (cache_wf_set (from_message m a (now w + d) c)), H1.
  - eapply insert_one_wf; eauto.
Qed.

Lemma inv_new_airdrop ctx a d c : respects keeps_inv (new_airdrop ctx a d c).
Proof.
  unfold new_airdrop.
  apply (respects_bind HI); [now apply (respects_pure HI)|]. intros w.
  apply (respects_bind HI); [apply (respects_call HI)|]. intros _.
  destruct (negb _); [apply (respects_call HI)|].
  repeat (apply (respects_bind HI);
          [first [apply (respects_call HI) | apply (respects_emit HI)
                 | apply (respects_check HI)
                 | apply inv__add_from_message] | intros ?]).
  apply (respects_call HI).
Qed.

Lemma inv_frame : respects keeps_inv frame.
Proof.
  unfold frame.
  apply (respects_bind HI); [apply inv_update|]. intros _.
  apply (respects_bind HI); [now apply (respects_pure HI)|]. intros w.
  apply (respects_bind HI); [now apply (respects_pure HI)|]. intros c.
  apply (respects_for_each HI). intros a _.
  now apply (respects_dispatch HI).
Qed.
End Invariant.

Lemma inv_sample_s12 : inv Sample.s12.
Proof.
  split; [split|]; simpl.
  - repeat constructor; simpl; intuition discriminate.
  - repeat constructor.
  - unfold db_wf. simpl. repeat constructor; simpl; intuition discriminate.
Qed.

Lemma inv_sample_s312 : inv Sample.s312.
Proof.
  split; [split|]; simpl.
  - repeat constructor; simpl; intuition discriminate.
  - repeat constructor.
  - unfold db_wf. simpl. repeat constructor; simpl; intuition discriminate.
Qed.

(** ** Lookup by id of an absent airdrop *)

Lemma terminate_absent op k w s :
  Dict.get k (_state s) = None ->
  terminate op (ById k) w s = (Raise (AirdropNotFound (ById k)), s).
Proof.
  intros H. destruct op; simpl; unfold cancel, resolve, bind, get_airdrop, bind, get_state;
    simpl; now rewrite H.
Qed.

Lemma terminate_inv op r w s s' :
  terminate op r w s = (Ok tt, s') ->
  exists a, lookup r (_state s) = Some a /\
            _state s' = Dict.del (message_id a) (_state s) /\
            airdrops_db s' = delete_one (message_id a) (airdrops_db s).
Proof.
  destruct op; simpl; intros H.
  - apply cancel_inv in H as (a & H1 & H2 & H3 & H4 & H5). eauto.
  - apply resolve_inv in H as (a & H1 & H2 & H3 & ->). eauto.
Qed.

(** C1, as the code has it.  Once [resolve] or [cancel] has returned for
    an airdrop, its id is in neither the cache nor the collection, and any
    later [cancel] or [resolve] that passes that id raises
    [AirdropNotFound] and leaves the cache, the collection and the trace of
    calls as they were; a refresh in between does not bring the id back.
    A later call that passes the [Airdrop] itself is not looked up:
    [resolve] records the distribution again and raises ([KeyError] at the
    cache removal when the distribution returned), and [cancel] raises
    [KeyError]. *)
Theorem single_resolution op1 op2 r w w' s s' :
  inv s ->
  terminate op1 r w s = (Ok tt, s') ->
  Dict.get (the_id r) (_state s') = None /\
  has_id (the_id r) (airdrops_db s') = false /\
  terminate op2 (ById (the_id r)) w' s' =
    (Raise (AirdropNotFound (ById (the_id r))), s') /\
  (forall w1 res s1, update w1 s' = (res, s1) ->
     terminate op2 (ById (the_id r)) w' s1 =
       (Raise (AirdropNotFound (ById (the_id r))), s1)) /\
  (exists a, lookup r (_state s) = Some a /\ message_id a = the_id r /\
     resolve (ByEntity a) w' s' =
       (Raise (if ext_ok w' (AirdropResolve a) then KeyError (message_id a)
               else ExternalError (AirdropResolve a)),
        record (AirdropResolve a) s') /\
     cancel (ByEntity a) w' s' = (Raise (KeyError (message_id a)), s')).
Proof.
  intros [Hc Hd] H.
  apply terminate_inv in H as (a & Hl & Hs & Hdb).
  pose proof (cache_wf_lookup _ _ _ Hc Hl) as Hid.
  assert (Hgone : Dict.get (the_id r) (_state s') = None)
    by (rewrite <- Hid, Hs; apply DictFacts.get_del_same).
  assert (Hgone' : has_id (the_id r) (airdrops_db s') = false)
    by (rewrite <- Hid, Hdb; now apply delete_one_gone).
  split; [exact Hgone|]. split; [exact Hgone'|].
  split; [now apply terminate_absent|]. split.
  - intros w1 res s1. unfold update. rewrite _fetch_run.
    destruct (ext_ok w1 DbFind); intros [= <- <-]; apply terminate_absent; simpl; auto.
    now rewrite refreshed_absent.
  - exists a. split; [exact Hl|]. split; [exact Hid|].
    rewrite <- Hid in Hgone. split.
    + run. destruct (ext_ok w' (AirdropResolve a)); simpl; [|reflexivity].
      now rewrite Hgone.
    + run. now rewrite Hgone.
Qed.

Lemma single_resolution_witness :
  terminate Cancel (ById 100) (Sample.calm 1500)
    (snd (terminate Resolve (ByEntity Sample.ad1) (Sample.calm 1200) Sample.s12)) =
  (Raise (AirdropNotFound (ById 100)),
   snd (terminate Resolve (ByEntity Sample.ad1) (Sample.calm 1200) Sample.s12)).
Proof.
  apply (single_resolution Resolve Cancel (ByEntity Sample.ad1)
           (Sample.calm 1200) (Sample.calm 1500) Sample.s12).
  - exact inv_sample_s12.
  - reflexivity.
Defined.

(** After [resolve (ById 100)] has returned, a [resolve] that passes the
    airdrop itself does not raise [AirdropNotFound]: it records a second
    distribution and raises [KeyError]. *)
Lemma single_resolution_counterexample :
  ~ later_call_not_found Resolve Resolve (ById 100) (ByEntity Sample.ad1)
      (Sample.calm 1200) (Sample.calm 1300) Sample.s12 /\
  resolve (ByEntity Sample.ad1) (Sample.calm 1300)
    (snd (resolve (ById 100) (Sample.calm 1200) Sample.s12)) =
  (Raise (KeyError 100),
   record (AirdropResolve Sample.ad1)
     (snd (resolve (ById 100) (Sample.calm 1200) Sample.s12))).
Proof.
  split; [|reflexivity].
  intros H.
  specialize (H (snd (resolve (ById 100) (Sample.calm 1200) Sample.s12))
                eq_refl eq_refl).
  vm_compute in H. discriminate.
Qed.

(** C3. When the call that distributes the reward raises, [resolve] raises
    with it and has removed nothing: the cache and the collection are as
    before.  So a later sweep selects the same airdrops as it would have,
    and a later [resolve] whose calls return goes through. *)
Theorem resolve_failure_keeps_event r a w s :
  lookup r (_state s) = Some a ->
  ext_ok w (AirdropResolve a) = false ->
  let s1 := record (AirdropResolve a) s in
  resolve r w s = (Raise (ExternalError (AirdropResolve a)), s1) /\
  _state s1 = _state s /\
  airdrops_db s1 = airdrops_db s /\
  (forall w', to_resolve w' (_state (after_update s1)) =
              to_resolve w' (_state (after_update s))) /\
  (forall w',
     Dict.get (message_id a) (_state s) <> None ->
     ext_ok w' (AirdropResolve a) = true ->
     ext_ok w' (PartialUnpin (channel_id a) (message_id a)) = true ->
     ext_ok w' (DbDeleteOne (message_id a)) = true ->
     resolve r w' s1 = (Ok tt, removed a (record (AirdropResolve a) s1))).
Proof.
  intros Hl Hf. simpl. repeat split.
  - unfold resolve, bind at 1. unfold get_airdrop, bind at 1, get_state. rewrite Hl.
    simpl. unfold bind, call. now rewrite Hf.
  - intros w' Hin H1 H2 H3.
    unfold resolve, bind at 1. unfold get_airdrop, bind at 1, get_state. simpl. rewrite Hl.
    simpl. unfold bind at 1, call. rewrite H1.
    now apply _remove_entity_ok.
Qed.

Lemma resolve_failure_keeps_event_witness :
  resolve (ById 100) (Sample.failing 1200 100) Sample.s12 =
    (Raise (ExternalError (AirdropResolve Sample.ad1)),
     record (AirdropResolve Sample.ad1) Sample.s12) /\
  _state (record (AirdropResolve Sample.ad1) Sample.s12) = _state Sample.s12.
Proof.
  destruct (resolve_failure_keeps_event (ById 100) Sample.ad1
              (Sample.failing 1200 100) Sample.s12) as (H1 & H2 & _).
  - reflexivity.
  - reflexivity.
  - split; [exact H1 | exact H2].
Defined.

(** ** The order of the steps of [resolve] *)

Lemma resolve_run r w s :
  resolve r w s =
  match lookup r (_state s) with
  | None => (Raise (AirdropNotFound r), s)
  | Some a =>
      let k := message_id a in
      let s1 := record (AirdropResolve a) s in
      if ext_ok w (AirdropResolve a) then
        match Dict.get k (_state s) with
        | None => (Raise (KeyError k), s1)
        | Some _ =>
            let s2 := record (StateDel k)
                        {| _state := Dict.del k (_state s);
                           airdrops_db := airdrops_db s; trace := trace s1 |} in
            let s3 := record (PartialUnpin (channel_id a) k) s2 in
            if ext_ok w (PartialUnpin (channel_id a) k) then
              let s4 := record (DbDeleteOne k) s3 in
              if ext_ok w (DbDeleteOne k) then
                (Ok tt, {| _state := _state s4;
                           airdrops_db := delete_one k (airdrops_db s);
                           trace := trace s4 |})
              else (Raise (ExternalError (DbDeleteOne k)), s4)
            else (Raise (ExternalError (PartialUnpin (channel_id a) k)), s3)
        end
      else (Raise (ExternalError (AirdropResolve a)), s1)
  end.
Proof.
  run. destruct (lookup r (_state s)) as [a|]; simpl; auto.
  destruct (ext_ok w (AirdropResolve a)); simpl; auto.
  destruct (Dict.get (message_id a) (_state s)); simpl; auto.
  destruct (ext_ok w (PartialUnpin _ _)); simpl; auto.
  destruct (ext_ok w (DbDeleteOne _)); simpl; auto.
Qed.

(** C5. In every run of [resolve] the trace grows by an initial part of
    distribute, cache removal, unpin, collection removal, in that order.  If
    a removal is recorded, or the cache or the collection has changed, then
    the distribution call is the first entry and it returned.  A run that
    returns made all four steps and removed the airdrop from both. *)
Theorem resolve_removes_after_distribution r w s res s' :
  resolve r w s = (res, s') ->
  exists t, trace s' = trace s ++ t /\
    (existsb removal t = true \/ _state s' <> _state s \/
     airdrops_db s' <> airdrops_db s ->
       exists a t', lookup r (_state s) = Some a /\ t = AirdropResolve a :: t' /\
                    ext_ok w (AirdropResolve a) = true) /\
    (res = Ok tt ->
       exists a, lookup r (_state s) = Some a /\ t = resolve_calls a /\
                 ext_ok w (AirdropResolve a) = true /\
                 _state s' = Dict.del (message_id a) (_state s) /\
                 airdrops_db s' = delete_one (message_id a) (airdrops_db s)).
Proof.
  rewrite resolve_run.
  destruct (lookup r (_state s)) as [a|] eqn:L; simpl.
  2:{ intros [= <- <-]. exists []. rewrite app_nil_r.
      split; [reflexivity|]. split; [|discriminate].
      simpl. intros [?|[?|?]]; congruence. }
  destruct (ext_ok w (AirdropResolve a)) eqn:E1.
  2:{ intros [= <- <-]. exists [AirdropResolve a].
      split; [reflexivity|]. split; [|discriminate].
      simpl. intros [?|[?|?]]; congruence. }
  assert (Hfirst : forall t', exists a0 t0, Some a = Some a0 /\
            AirdropResolve a :: t' = AirdropResolve a0 :: t0 /\
            ext_ok w (AirdropResolve a0) = true) by (intros t'; eauto).
  destruct (Dict.get (message_id a) (_state s)) eqn:G.
  2:{ intros [= <- <-]. exists [AirdropResolve a].
      split; [reflexivity|]. split; [intros _; apply Hfirst | discriminate]. }
  destruct (ext_ok w (PartialUnpin _ _)) eqn:E2.
  2:{ intros [= <- <-]. eexists. simpl. rewrite <- !app_assoc. simpl.
      split; [reflexivity|]. split; [intros _; apply Hfirst | discriminate]. }
  destruct (ext_ok w (DbDeleteOne _)) eqn:E3; intros [= <- <-]; eexists; simpl;
    rewrite <- !app_assoc; simpl;
    (split; [reflexivity|]); (split; [intros _; apply Hfirst|]); try discriminate.
  intros _. exists a. auto.
Qed.

Lemma resolve_removes_after_distribution_witness :
  exists t, trace (snd (resolve (ById 100) (Sample.calm 1200) Sample.s12)) =
            trace Sample.s12 ++ t /\ t = resolve_calls Sample.ad1.
Proof.
  destruct (resolve_removes_after_distribution (ById 100) (Sample.calm 1200)
              Sample.s12 (Ok tt)
              (snd (resolve (ById 100) (Sample.calm 1200) Sample.s12)))
    as (t & Ht & _ & Hok).
  - reflexivity.
  - exists t. split; [exact Ht|].
    destruct (Hok eq_refl) as (a & L & -> & _). simpl in L. now inversion L.
Defined.

(** ** References by entity *)

Lemma resolve_entity_twice a w w' s s' :
  resolve (ByEntity a) w s = (Ok tt, s') ->
  ext_ok w' (AirdropResolve a) = true ->
  resolve (ByEntity a) w' s' =
    (Raise (KeyError (message_id a)), record (AirdropResolve a) s').
Proof.
  intros H E. apply resolve_inv in H as (a' & L & _ & _ & ->).
  simpl in L. inversion L; subst a'.
  rewrite resolve_run. simpl. rewrite E.
  now rewrite DictFacts.get_del_same.
Qed.

(** C10. Given an [Airdrop] instead of an id, [get_airdrop] returns it
    whatever the cache holds.  So when the airdrop is no longer cached, as
    after a [resolve] of it that returned, [resolve] does not raise
    [AirdropNotFound]: it calls the distribution again and then raises
    [KeyError] at [del self._state[...]], with the cache and the collection
    as they were; [cancel] raises the same [KeyError]. *)
Theorem entity_reference_skips_cache a w s :
  (forall w0 s0, get_airdrop (ByEntity a) w0 s0 = (Ok a, s0)) /\
  (Dict.get (message_id a) (_state s) = None ->
   ext_ok w (AirdropResolve a) = true ->
   resolve (ByEntity a) w s =
     (Raise (KeyError (message_id a)), record (AirdropResolve a) s) /\
   cancel (ByEntity a) w s = (Raise (KeyError (message_id a)), s)) /\
  (forall w0 s0, resolve (ByEntity a) w0 s0 = (Ok tt, s) ->
   ext_ok w (AirdropResolve a) = true ->
   resolve (ByEntity a) w s =
     (Raise (KeyError (message_id a)), record (AirdropResolve a) s)).
Proof.
  split; [reflexivity|]. split.
  - intros G E. split.
    + rewrite resolve_run. simpl. now rewrite E, G.
    + run. now rewrite G.
  - intros w0 s0 H E. eapply resolve_entity_twice; eauto.
Qed.

Lemma entity_reference_skips_cache_witness :
  resolve (ByEntity Sample.ad3) (Sample.calm 1200) Sample.s12 =
    (Raise (KeyError 300), record (AirdropResolve Sample.ad3) Sample.s12).
Proof.
  destruct (entity_reference_skips_cache Sample.ad3 (Sample.calm 1200) Sample.s12)
    as (_ & H & _).
  destruct H as [H _]; [reflexivity | reflexivity | exact H].
Defined.

(** ** Creation *)

Lemma _add_from_message_run message amount0 duration channel w s :
  _add_from_message message amount0 duration channel w s =
  let e := from_message message amount0 (now w + duration) channel in
  let s1 := record (DbInsertOne (to_db_dict e)) s in
  if ext_ok w (DbInsertOne (to_db_dict e)) then
    if has_id (msg_id message) (airdrops_db s) then
      (Raise (DuplicateKeyError (msg_id message)), s1)
    else
      (Ok e, record (StateSet (msg_id message) e)
               {| _state := Dict.set (msg_id message) e (_state s);
                  airdrops_db := airdrops_db s ++ [to_db_dict e];
                  trace := trace s1 |})
  else (Raise (ExternalError (DbInsertOne (to_db_dict e))), s1).
Proof.
  run. destruct (ext_ok w _); simpl; auto.
  unfold insert_one. simpl. destruct (has_id (msg_id message) (airdrops_db s)); reflexivity.
Qed.

(** C6. A create whose insert goes through builds the event with
    [end_time = now + duration], no entrants and the given amount, anchor
    and channel; it records the insert into the collection before the
    write into the cache, and a lookup of the id right after returns that
    event.  A create that raises has not touched the cache. *)
Theorem create_round_trip message amount0 duration channel w s :
  let e := from_message message amount0 (now w + duration) channel in
  (ext_ok w (DbInsertOne (to_db_dict e)) = true ->
   has_id (msg_id message) (airdrops_db s) = false ->
   exists s',
     _add_from_message message amount0 duration channel w s = (Ok e, s') /\
     end_time e = now w + duration /\
     entrants e = [] /\
     amount e = amount0 /\
     message_id e = msg_id message /\
     channel_id e = chan_id (match channel with
                             | Some c => c
                             | None => msg_channel message
                             end) /\
     trace s' = trace s ++ [DbInsertOne (to_db_dict e); StateSet (message_id e) e] /\
     airdrops_db s' = airdrops_db s ++ [to_db_dict e] /\
     airdrop_of_doc (to_db_dict e) = e /\
     (forall w', get_airdrop (ById (msg_id message)) w' s' = (Ok e, s'))) /\
  (forall x s', _add_from_message message amount0 duration channel w s = (Raise x, s') ->
     _state s' = _state s).
Proof.
  intros e. rewrite _add_from_message_run. cbv zeta. fold e. split.
  - intros E H. rewrite E, H. eexists. split; [reflexivity|].
    repeat split; simpl.
    + now rewrite app_cons_assoc.
    + intros w'. unfold get_airdrop, bind, get_state. simpl.
      now rewrite DictFacts.get_set_same.
  - intros x s'. destruct (ext_ok w (DbInsertOne _));
      [destruct (has_id (msg_id message) (airdrops_db s))|];
      intros [= <- <-]; reflexivity.
Qed.

Lemma create_round_trip_witness :
  exists s',
    _add_from_message (mkMessage 400 (mkChannel 10 1)) 100 60 None
      (Sample.calm 1000) Sample.s12 =
      (Ok (mkAirdrop 1 10 400 100 1060 []), s') /\
    get_airdrop (ById 400) (Sample.calm 1000) s' =
      (Ok (mkAirdrop 1 10 400 100 1060 []), s').
Proof.
  destruct (create_round_trip (mkMessage 400 (mkChannel 10 1)) 100 60 None
              (Sample.calm 1000) Sample.s12) as [H _].
  destruct H as (s' & H1 & _ & _ & _ & _ & _ & _ & _ & _ & H2).
  - reflexivity.
  - reflexivity.
  - exists s'. split; [exact H1 | exact (H2 (Sample.calm 1000))].
Defined.

(** C9. A create that succeeds returns the event it built, which is the one
    now cached under its id and stored in the collection.  Its caller
    [new_airdrop] receives that event and puts it on the button of the
    anchor message. *)
Theorem create_returns_event message amount0 duration channel w s e s' :
  _add_from_message message amount0 duration channel w s = (Ok e, s') ->
  e = from_message message amount0 (now w + duration) channel /\
  Dict.get (message_id e) (_state s') = Some e /\
  In (to_db_dict e) (airdrops_db s') /\
  (forall ctx s0 s1,
     new_airdrop ctx amount0 duration channel w s0 = (Ok tt, s1) ->
     can_afford w (to_contract_value w amount0) = true ->
     let ch := match channel with Some c => c | None => ctx_channel ctx end in
     let root := {| msg_id := sent_id w (chan_id ch); msg_channel := ch |} in
     exists e1 s2 s3,
       _add_from_message root amount0 duration (Some ch) w s2 = (Ok e1, s3) /\
       In (ViewAddItem e1) (trace s1) /\
       Dict.get (message_id e1) (_state s1) = Some e1).
Proof.
  intros H. split; [|split; [|split]].
  - revert H. rewrite _add_from_message_run. cbv zeta.
    destruct (ext_ok w (DbInsertOne _));
      [destruct (has_id (msg_id message) (airdrops_db s))|]; now intros [= <- <-].
  - revert H. rewrite _add_from_message_run. cbv zeta.
    destruct (ext_ok w (DbInsertOne _));
      [destruct (has_id (msg_id message) (airdrops_db s))|]; intros [= <- <-]; simpl.
    apply DictFacts.get_set_same.
  - revert H. rewrite _add_from_message_run. cbv zeta.
    destruct (ext_ok w (DbInsertOne _));
      [destruct (has_id (msg_id message) (airdrops_db s))|]; intros [= <- <-]; simpl.
    apply in_or_app. right. now left.
  - clear H. intros ctx s0 s1 H Haff ch root. revert H.
    unfold new_airdrop, bind at 1, ask. unfold bind at 1, call at 1.
    destruct (ext_ok w (CanAfford _)); [|discriminate].
    rewrite Haff. change (negb true) with false. cbv iota. fold ch. fold root.
    unfold bind at 1, call at 1. destruct (ext_ok w CtxRespond); [|discriminate].
    unfold bind at 1, check at 1.
    destruct (ext_ok w (EmbedTimestamp _)); [|discriminate].
    unfold bind at 1, check at 1. destruct (ext_ok w BotAvatarUrl); [|discriminate].
    unfold bind at 1, call at 1. destruct (ext_ok w (ChannelSend _)); [|discriminate].
    unfold bind at 1.
    match goal with
    | |- context [_add_from_message root amount0 duration (Some ch) w ?st] =>
        destruct (_add_from_message root amount0 duration (Some ch) w st)
          as [[e1|x] s3] eqn:Hadd; [intros H; exists e1, st, s3|discriminate]
    end.
    split; [exact Hadd|]. revert H.
    revert Hadd. rewrite _add_from_message_run. cbv zeta.
    destruct (ext_ok w (DbInsertOne _)); [|discriminate].
    match goal with
    | |- context [has_id ?k ?db] => destruct (has_id k db); [discriminate|]
    end.
    intros [= <- <-]. run.
    destruct (ext_ok w (MessageEdit _)); [|discriminate].
    destruct (ext_ok w (MessagePin _)); intros [= <-]; simpl. split.
    + rewrite <- !app_assoc. apply in_or_app. right. simpl. tauto.
    + apply DictFacts.get_set_same.
Qed.

Lemma create_returns_event_witness :
  Dict.get 400
    (_state (snd (_add_from_message (mkMessage 400 (mkChannel 10 1)) 100 60 None
                    (Sample.calm 1000) Sample.s12))) =
  Some (mkAirdrop 1 10 400 100 1060 []).
Proof.
  destruct (create_returns_event (mkMessage 400 (mkChannel 10 1)) 100 60 None
              (Sample.calm 1000) Sample.s12 (mkAirdrop 1 10 400 100 1060 [])
              (snd (_add_from_message (mkMessage 400 (mkChannel 10 1)) 100 60 None
                      (Sample.calm 1000) Sample.s12))) as (_ & H & _).
  - reflexivity.
  - exact H.
Defined.

(** ** The affordability check *)

Lemma new_airdrop_refused_run ctx amount0 duration channel w s :
  can_afford w (to_contract_value w amount0) = false ->
  new_airdrop ctx amount0 duration channel w s =
  let s1 := record (CanAfford (to_contract_value w amount0)) s in
  if ext_ok w (CanAfford (to_contract_value w amount0)) then
    (if ext_ok w (InsufficientFunds amount0) then Ok tt
     else Raise (ExternalError (InsufficientFunds amount0)),
     record (InsufficientFunds amount0) s1)
  else (Raise (ExternalError (CanAfford (to_contract_value w amount0))), s1).
Proof.
  intros H. run. rewrite H. simpl.
  destruct (ext_ok w (CanAfford _)); reflexivity.
Qed.

(** C8. [new_airdrop], the caller of the create step, asks the backend
    first: when the amount cannot be afforded it reports that to the
    initiator and returns, leaving the cache and the collection as they
    were (its only calls are the check and the report).  The create step
    itself never looks at [can_afford]. *)
Theorem insufficient_funds_creates_nothing ctx amount0 duration channel w s :
  can_afford w (to_contract_value w amount0) = false ->
  (exists res s' t,
     new_airdrop ctx amount0 duration channel w s = (res, s') /\
     _state s' = _state s /\
     airdrops_db s' = airdrops_db s /\
     trace s' = trace s ++ CanAfford (to_contract_value w amount0) :: t /\
     (t = [] \/ t = [InsufficientFunds amount0]) /\
     (ext_ok w (CanAfford (to_contract_value w amount0)) = true ->
      t = [InsufficientFunds amount0] /\
      (ext_ok w (InsufficientFunds amount0) = true -> res = Ok tt))) /\
  (forall f message,
     _add_from_message message amount0 duration channel (with_can_afford f w) s =
     _add_from_message message amount0 duration channel w s).
Proof.
  intros H. split.
  - rewrite (new_airdrop_refused_run _ _ _ _ _ _ H). cbv zeta.
    destruct (ext_ok w (CanAfford _)) eqn:E1.
    + exists (if ext_ok w (InsufficientFunds amount0) then Ok tt
              else Raise (ExternalError (InsufficientFunds amount0))).
      eexists. exists [InsufficientFunds amount0].
      split; [reflexivity|]. simpl. rewrite app_cons_assoc.
      repeat split; auto. now intros ->.
    + eexists. eexists. exists []. split; [reflexivity|]. simpl.
      repeat split; auto; discriminate.
  - intros f message. rewrite !_add_from_message_run. reflexivity.
Qed.

Lemma insufficient_funds_creates_nothing_witness :
  exists res s' t,
    new_airdrop (mkCtx (mkChannel 10 1) 77) 100 60 None (Sample.broke 1000)
      Sample.s12 = (res, s') /\
    _state s' = _state Sample.s12 /\
    airdrops_db s' = airdrops_db Sample.s12 /\
    trace s' = trace Sample.s12 ++ CanAfford 100 :: t /\
    (t = [] \/ t = [InsufficientFunds 100]).
Proof.
  destruct (insufficient_funds_creates_nothing (mkCtx (mkChannel 10 1) 77) 100 60 None
              (Sample.broke 1000) Sample.s12) as [H _].
  - reflexivity.
  - destruct H as (res & s' & t & H1 & H2 & H3 & H4 & H5 & _).
    exists res, s', t. repeat split; assumption.
Defined.

(** ** Refresh *)

(** C7. A refresh that reads the collection puts every document read into
    the cache under its id, replacing what was there; an id the collection
    does not hold keeps its cache entry as it was, so no entry of the cache
    is dropped.  A refresh whose read raises leaves the cache alone.  The
    collection is only read. *)
Theorem merge_only_refresh w s res s' :
  _fetch w s = (res, s') ->
  (forall k, Dict.get k (_state s) <> None -> Dict.get k (_state s') <> None) /\
  (forall k, has_id k (airdrops_db s) = false ->
     Dict.get k (_state s') = Dict.get k (_state s)) /\
  airdrops_db s' = airdrops_db s /\
  (res = Ok tt <-> ext_ok w DbFind = true) /\
  (res = Ok tt -> db_wf (airdrops_db s) ->
   forall d, In d (airdrops_db s) ->
     Dict.get (_id d) (_state s') = Some (airdrop_of_doc d)).
Proof.
  rewrite _fetch_run.
  destruct (ext_ok w DbFind); intros [= <- <-]; simpl; repeat split; auto;
    try discriminate.
  - intros k. apply refreshed_keeps.
  - intros k. apply refreshed_absent.
  - intros _ Hwf d Hin. now apply refreshed_present.
Qed.

Lemma merge_only_refresh_witness :
  Dict.get 300 (_state (snd (_fetch (Sample.calm 1200) Sample.stale))) <> None /\
  Dict.get 100 (_state (snd (_fetch (Sample.calm 1200) Sample.stale))) =
    Some Sample.ad1.
Proof.
  destruct (merge_only_refresh (Sample.calm 1200) Sample.stale (Ok tt)
              (snd (_fetch (Sample.calm 1200) Sample.stale)))
    as (H1 & _ & _ & _ & H2).
  - reflexivity.
  - split.
    + apply H1. discriminate.
    + apply (H2 eq_refl) with (d := to_db_dict Sample.ad1).
      * unfold db_wf. simpl. repeat constructor. simpl. tauto.
      * simpl. now left.
Defined.

(** ** The sweep *)

Lemma frame_run w s :
  frame w s =
  if ext_ok w DbFind then
    for_each (to_resolve w (_state (after_update s))) dispatch w (after_update s)
  else (Raise (ExternalError DbFind), record DbFind s).
Proof.
  unfold frame, bind at 1. unfold update. rewrite _fetch_run.
  destruct (ext_ok w DbFind); reflexivity.
Qed.

Lemma dispatch_run a w s :
  dispatch a w s = resolve (ByEntity a) w (record (LogInfo (message_id a)) s).
Proof. reflexivity. Qed.

Lemma due_iff w a :
  ended w a && (ends_in w a <=? 0) = true <-> end_time a <= now w.
Proof.
  unfold ended, ends_in. rewrite andb_true_iff, !Z.leb_le. lia.
Qed.

Lemma to_resolve_spec w c a :
  In a (to_resolve w c) <-> In a (Dict.values c) /\ end_time a <= now w.
Proof. unfold to_resolve. now rewrite filter_In, due_iff. Qed.

Lemma values_get c a :
  cache_wf c -> (In a (Dict.values c) <-> Dict.get (message_id a) c = Some a).
Proof.
  intros [Hnd Hkey]. rewrite Forall_forall in Hkey. unfold Dict.values. split.
  - intros Hin. apply in_map_iff in Hin as ([k a'] & E & Hin). simpl in E. subst a'.
    pose proof (Hkey _ Hin) as E. simpl in E. subst k.
    now apply DictFacts.in_get.
  - intros G. apply DictFacts.get_in in G. apply in_map_iff. now exists (message_id a, a).
Qed.

Lemma ids_of_values c : cache_wf c -> map message_id (Dict.values c) = Dict.keys c.
Proof.
  intros [_ Hkey]. unfold Dict.values, Dict.keys. rewrite map_map.
  apply map_ext_in. intros kv Hin. rewrite Forall_forall in Hkey. symmetry. now apply Hkey.
Qed.

Lemma NoDup_map_filter {A B} (f : A -> B) (p : A -> bool) l :
  NoDup (map f l) -> NoDup (map f (filter p l)).
Proof.
  induction l as [|x l IH]; simpl; auto.
  intros Hnd. inversion Hnd as [|? ? Hnotin Hnd']; subst.
  destruct (p x); simpl; auto. constructor; auto.
  intros Hin. apply Hnotin. apply in_map_iff in Hin as (y & E & Hy).
  apply filter_In in Hy as [Hy _]. apply in_map_iff. eauto.
Qed.

Lemma to_resolve_nodup w c : cache_wf c -> NoDup (map message_id (to_resolve w c)).
Proof.
  intros Hwf. unfold to_resolve. apply NoDup_map_filter.
  rewrite ids_of_values by assumption. apply Hwf.
Qed.

Lemma in_dispatch_calls a b : In (AirdropResolve b) (dispatch_calls a) -> a = b.
Proof.
  simpl. intros [H|[H|[H|[H|[H|[]]]]]]; try discriminate. now inversion H.
Qed.

Lemma dispatch_trace a w s res s' :
  dispatch a w s = (res, s') ->
  exists t, trace s' = trace s ++ t /\ incl t (dispatch_calls a).
Proof.
  rewrite dispatch_run, resolve_run. simpl.
  assert (I : forall n, incl (firstn n (dispatch_calls a)) (dispatch_calls a)).
  { intros n e He. rewrite <- (firstn_skipn n (dispatch_calls a)).
    apply in_or_app. now left. }
  destruct (ext_ok w (AirdropResolve a)).
  2:{ intros [= <- <-]. exists (firstn 2 (dispatch_calls a)). split; [|apply I].
      simpl. now rewrite !app_cons_assoc. }
  destruct (Dict.get (message_id a) (_state s)).
  2:{ intros [= <- <-]. exists (firstn 2 (dispatch_calls a)). split; [|apply I].
      simpl. now rewrite !app_cons_assoc. }
  destruct (ext_ok w (PartialUnpin _ _)).
  2:{ intros [= <- <-]. exists (firstn 4 (dispatch_calls a)). split; [|apply I].
      simpl. now rewrite !app_cons_assoc. }
  destruct (ext_ok w (DbDeleteOne _)); intros [= <- <-];
    exists (firstn 5 (dispatch_calls a)); (split; [|apply I]);
    simpl; now rewrite !app_cons_assoc.
Qed.

Lemma for_each_dispatch_trace l w s res s' :
  for_each l dispatch w s = (res, s') ->
  exists t, trace s' = trace s ++ t /\
    forall e, In e t -> exists a, In a l /\ In e (dispatch_calls a).
Proof.
  revert s. induction l as [|a l IH]; simpl; intros s.
  - intros [= <- <-]. exists []. rewrite app_nil_r. split; [reflexivity|]. intros e [].
  - unfold bind. destruct (dispatch a w s) as [[[]|x] s1] eqn:D.
    + intros H. apply dispatch_trace in D as (t1 & Ht1 & I1).
      apply IH in H as (t2 & Ht2 & I2). exists (t1 ++ t2). split.
      * now rewrite Ht2, Ht1, app_assoc.
      * intros e He. apply in_app_or in He as [He|He].
        -- exists a. split; [now left | now apply I1].
        -- destruct (I2 e He) as (b & Hb & Hin). exists b. split; [now right | exact Hin].
    + intros [= <- <-]. apply dispatch_trace in D as (t1 & Ht1 & I1).
      exists t1. split; [exact Ht1|]. intros e He. exists a. split; [now left | now apply I1].
Qed.

Lemma for_each_raise_split {A} (body : A -> M unit) l w s x s' :
  for_each l body w s = (Raise x, s') ->
  exists l1 a l2 s1, l = l1 ++ a :: l2 /\
    for_each l1 body w s = (Ok tt, s1) /\ body a w s1 = (Raise x, s').
Proof.
  revert s. induction l as [|a l IH]; simpl; intros s.
  - discriminate.
  - unfold bind. destruct (body a w s) as [[[]|y] s1] eqn:B.
    + intros H. apply IH in H as (l1 & b & l2 & s2 & -> & H1 & H2).
      exists (a :: l1), b, l2, s2. simpl. unfold bind. rewrite B. auto.
    + intros [= <- <-]. exists [], a, l, s. auto.
Qed.

(** *** What a sweep leaves alone *)

Lemma delete_one_subset k d db : In d (delete_one k db) -> In d db.
Proof.
  induction db as [|d' db IH]; simpl; auto.
  destruct (_id d' =? k); simpl; tauto.
Qed.

Lemma same_at_compatible k : Compatible (same_at k) (fun k' => k' <> k).
Proof.
  split; unfold same_at; simpl.
  - intros s. split; [reflexivity | tauto].
  - intros s1 s2 s3 [H1 H2] [H3 H4]. split; [congruence|].
    intros d Hd. rewrite (H4 d Hd). auto.
  - intros e s. split; [reflexivity | tauto].
  - intros k' s Hne _. split; [now apply DictFacts.get_del_other | tauto].
  - intros k' s Hne. split; [reflexivity|]. intros d Hd. split.
    + apply delete_one_subset.
    + apply delete_one_other. congruence.
Qed.

Lemma for_each_dispatch_same_at k l w s res s' :
  ~ In k (map message_id l) ->
  for_each l dispatch w s = (res, s') -> same_at k s s'.
Proof.
  intros Hk H.
  refine (respects_for_each (same_at_compatible k) l dispatch _ w s res s' H).
  intros a Ha. apply (respects_dispatch (same_at_compatible k)).
  intros E. apply Hk. rewrite <- E. now apply in_map.
Qed.

(** *** A sweep in which every call returns *)

Lemma resolve_entity_ok a w s :
  Dict.get (message_id a) (_state s) <> None ->
  ext_ok w (AirdropResolve a) = true ->
  ext_ok w (PartialUnpin (channel_id a) (message_id a)) = true ->
  ext_ok w (DbDeleteOne (message_id a)) = true ->
  resolve (ByEntity a) w s = (Ok tt, removed a (record (AirdropResolve a) s)).
Proof.
  intros Hin H1 H2 H3.
  unfold resolve, bind at 1. unfold get_airdrop, bind at 1, get_state. simpl.
  unfold bind at 1, call. rewrite H1.
  now apply _remove_entity_ok.
Qed.

Lemma dispatch_ok a w s :
  (forall e, ext_ok w e = true) ->
  Dict.get (message_id a) (_state s) <> None ->
  dispatch a w s = (Ok tt, dispatched s a).
Proof.
  intros Hok Hin. rewrite dispatch_run. now apply resolve_entity_ok.
Qed.

Lemma for_each_dispatch_ok l w s :
  (forall e, ext_ok w e = true) ->
  NoDup (map message_id l) ->
  (forall a, In a l -> Dict.get (message_id a) (_state s) <> None) ->
  for_each l dispatch w s = (Ok tt, fold_left dispatched l s).
Proof.
  intros Hok. revert s. induction l as [|a l IH]; simpl; intros s Hnd Hin; auto.
  inversion Hnd as [|? ? Hnotin Hnd']; subst.
  unfold bind. rewrite dispatch_ok by auto.
  apply IH; auto. intros b Hb. simpl.
  rewrite DictFacts.get_del_other; auto.
  intros E. apply Hnotin. rewrite E. now apply in_map.
Qed.

Lemma swept_trace l s :
  trace (fold_left dispatched l s) = trace s ++ flat_map dispatch_calls l.
Proof.
  revert s. induction l as [|a l IH]; simpl; intros s.
  - now rewrite app_nil_r.
  - rewrite IH. simpl. now rewrite <- !app_assoc.
Qed.

Lemma get_del_none k k' (c : Dict.t Airdrop) :
  Dict.get k c = None -> Dict.get k (Dict.del k' c) = None.
Proof.
  intros H. destruct (Z.eq_dec k' k) as [->|Hne].
  - apply DictFacts.get_del_same.
  - now rewrite DictFacts.get_del_other.
Qed.

Lemma has_id_delete_one k k' db :
  has_id k db = false -> has_id k (delete_one k' db) = false.
Proof.
  rewrite !has_id_false_iff. intros H Hin. apply H.
  eapply delete_one_ids_subset; eauto.
Qed.

Lemma swept_gone l : forall s a,
  db_wf (airdrops_db s) -> In a l ->
  Dict.get (message_id a) (_state (fold_left dispatched l s)) = None /\
  has_id (message_id a) (airdrops_db (fold_left dispatched l s)) = false.
Proof.
  assert (Hkeep : forall l s k, db_wf (airdrops_db s) ->
            Dict.get k (_state s) = None -> has_id k (airdrops_db s) = false ->
            Dict.get k (_state (fold_left dispatched l s)) = None /\
            has_id k (airdrops_db (fold_left dispatched l s)) = false).
  { clear l. induction l as [|b l IH]; simpl; intros s k Hwf H1 H2; auto.
    apply IH; simpl.
    - now apply delete_one_wf.
    - now apply get_del_none.
    - now apply has_id_delete_one. }
  induction l as [|b l IH]; simpl; intros s a Hwf Hin; [contradiction|].
  destruct Hin as [->|Hin].
  - apply Hkeep; simpl.
    + now apply delete_one_wf.
    + apply DictFacts.get_del_same.
    + now apply delete_one_gone.
  - apply IH; auto. simpl. now apply delete_one_wf.
Qed.

Lemma in_dispatch_calls_log a m : In (LogInfo m) (dispatch_calls a) -> m = message_id a.
Proof.
  simpl. intros [H|[H|[H|[H|[H|[]]]]]]; try discriminate. now inversion H.
Qed.

Lemma after_update_wf s : inv s -> cache_wf (_state (after_update s)).
Proof. intros [H _]. simpl. now apply refreshed_wf. Qed.

Lemma due_cached w s a :
  inv s ->
  (In a (to_resolve w (_state (after_update s))) <->
   Dict.get (message_id a) (_state (after_update s)) = Some a /\ end_time a <= now w).
Proof.
  intros Hinv. rewrite to_resolve_spec, values_get by now apply after_update_wf.
  reflexivity.
Qed.

Lemma sweep_spares_future w s res s' :
  inv s ->
  ext_ok w DbFind = true ->
  frame w s = (res, s') ->
  exists t, trace s' = trace (after_update s) ++ t /\
    forall b, Dict.get (message_id b) (_state (after_update s)) = Some b ->
              now w < end_time b ->
      Dict.get (message_id b) (_state s') = Some b /\
      (forall d, _id d = message_id b ->
         (In d (airdrops_db s') <-> In d (airdrops_db s))) /\
      ~ In (AirdropResolve b) t.
Proof.
  intros Hinv Hfind. rewrite frame_run, Hfind. intros H.
  destruct (for_each_dispatch_trace _ _ _ _ _ H) as (t & Ht & Hcalls).
  exists t. split; [exact Ht|]. intros b Hb Hfuture.
  assert (Hnot : ~ In b (to_resolve w (_state (after_update s)))).
  { intros Hin. apply due_cached in Hin as [_ Hdue]; auto. lia. }
  assert (Hid : ~ In (message_id b)
                     (map message_id (to_resolve w (_state (after_update s))))).
  { intros Hin. apply in_map_iff in Hin as (a & E & Ha).
    apply Hnot. apply due_cached in Ha as [Ha Hdue]; auto.
    rewrite E in Ha. rewrite Hb in Ha. inversion Ha; subst a.
    apply due_cached; auto. }
  destruct (for_each_dispatch_same_at _ _ _ _ _ _ Hid H) as [Hc Hdb].
  repeat split.
  - now rewrite Hc.
  - apply Hdb; auto.
  - apply Hdb; auto.
  - intros Hin. destruct (Hcalls _ Hin) as (a & Ha & Hcall).
    apply in_dispatch_calls in Hcall. subst a. auto.
Qed.

Lemma refresh_keeps_agreeing k b c db :
  db_wf db ->
  Dict.get k c = Some b ->
  (forall d, In d db -> _id d = k -> airdrop_of_doc d = b) ->
  Dict.get k (refreshed c db) = Some b.
Proof.
  intros Hwf Hb Hagree. destruct (has_id k db) eqn:E.
  - unfold has_id in E. apply existsb_exists in E as (d & Hin & Hd).
    apply Z.eqb_eq in Hd. subst k.
    rewrite (refreshed_present d c db Hwf Hin). f_equal. now apply Hagree.
  - now rewrite refreshed_absent.
Qed.

(** C2. After the refresh, the airdrops a sweep sets out to resolve are
    exactly the cached ones with [end_time <= now].  A cached airdrop whose
    [end_time] is still ahead is not passed to [resolve], and its cache
    entry and its document are the same after the sweep, however the sweep
    ends; this holds of an airdrop cached before the sweep when its
    document, if the collection has one, records the same airdrop.  When
    every call returns, the sweep returns, having resolved the due airdrops
    in cache order and removed each from the cache and the collection. *)
Theorem sweep_resolves_exactly_due w s :
  inv s ->
  ext_ok w DbFind = true ->
  let s0 := after_update s in
  (forall a, In a (to_resolve w (_state s0)) <->
             Dict.get (message_id a) (_state s0) = Some a /\ end_time a <= now w) /\
  (forall res s', frame w s = (res, s') ->
     exists t, trace s' = trace s0 ++ t /\
       forall b, Dict.get (message_id b) (_state s0) = Some b ->
                 now w < end_time b ->
         Dict.get (message_id b) (_state s') = Some b /\
         (forall d, _id d = message_id b ->
            (In d (airdrops_db s') <-> In d (airdrops_db s))) /\
         ~ In (AirdropResolve b) t) /\
  (forall res s' b, frame w s = (res, s') ->
     Dict.get (message_id b) (_state s) = Some b ->
     now w < end_time b ->
     (forall d, In d (airdrops_db s) -> _id d = message_id b -> airdrop_of_doc d = b) ->
     Dict.get (message_id b) (_state s') = Some b) /\
  ((forall e, ext_ok w e = true) ->
   exists s', frame w s = (Ok tt, s') /\
     trace s' = trace s0 ++ flat_map dispatch_calls (to_resolve w (_state s0)) /\
     forall a, In a (to_resolve w (_state s0)) ->
       Dict.get (message_id a) (_state s') = None /\
       has_id (message_id a) (airdrops_db s') = false).
Proof.
  intros Hinv Hfind. cbv zeta. split; [|split; [|split]].
  - intros a. now apply due_cached.
  - intros res s'. now apply sweep_spares_future.
  - intros res s' b H Hb Hfuture Hagree.
    destruct (sweep_spares_future _ _ _ _ Hinv Hfind H) as (t & _ & Hkeep).
    apply Hkeep; auto. simpl.
    apply refresh_keeps_agreeing; auto. apply Hinv.
  - intros Hok. rewrite frame_run, Hfind.
    assert (Hwf : cache_wf (_state (after_update s))) by now apply after_update_wf.
    rewrite for_each_dispatch_ok; auto.
    + eexists. split; [reflexivity|]. split; [apply swept_trace|].
      intros a Ha. apply swept_gone; auto. apply Hinv.
    + now apply to_resolve_nodup.
    + intros a Ha. apply due_cached in Ha as [Ha _]; auto. congruence.
Qed.

Lemma sweep_resolves_exactly_due_witness :
  exists s', frame (Sample.calm 1200) Sample.s312 = (Ok tt, s') /\
    trace s' = trace (after_update Sample.s312) ++
               flat_map dispatch_calls [Sample.ad3; Sample.ad1] /\
    Dict.get 200 (_state s') = Some Sample.ad2.
Proof.
  destruct (sweep_resolves_exactly_due (Sample.calm 1200) Sample.s312
              inv_sample_s312 eq_refl) as (_ & Hfuture & _ & Hall).
  destruct (Hall (fun _ => eq_refl)) as (s' & Hrun & Htrace & _).
  exists s'. split; [exact Hrun|]. split; [exact Htrace|].
  destruct (Hfuture _ _ Hrun) as (t & _ & Hb).
  destruct (Hb Sample.ad2) as (H & _); [reflexivity | reflexivity | exact H].
Defined.

(** *** A sweep in which a call raises *)

(** With [ad3] and [ad1] both due and the distribution of [ad3] raising,
    the sweep raises and [ad1] is never passed to [resolve]. *)
Lemma sweep_isolation_counterexample :
  fst (frame (Sample.failing 1200 300) Sample.s312) =
    Raise (ExternalError (AirdropResolve Sample.ad3)) /\
  ~ attempts_every_due_event (Sample.failing 1200 300) Sample.s312.
Proof.
  split; [reflexivity|].
  intros H. specialize (H Sample.ad1).
  assert (Hdue : In Sample.ad1
            (to_resolve (Sample.failing 1200 300) (_state (after_update Sample.s312))))
    by (vm_compute; auto).
  apply H in Hdue. vm_compute in Hdue.
  destruct Hdue as [E|[E|[E|[E|[]]]]]; discriminate.
Qed.

Lemma for_each_snoc_raise {A} (body : A -> M unit) l a w s s1 x s' :
  for_each l body w s = (Ok tt, s1) ->
  body a w s1 = (Raise x, s') ->
  for_each (l ++ [a]) body w s = (Raise x, s').
Proof.
  intros H Ha. revert s H. induction l as [|b l IH]; simpl; intros s.
  - intros [= <-]. unfold bind. now rewrite Ha.
  - unfold bind. destruct (body b w s) as [[[]|y] s2]; [|discriminate].
    apply IH.
Qed.

Lemma for_each_app_raise {A} (body : A -> M unit) l a l' w s s1 x s' :
  for_each l body w s = (Ok tt, s1) ->
  body a w s1 = (Raise x, s') ->
  for_each (l ++ a :: l') body w s = (Raise x, s').
Proof.
  intros H Ha. revert s H. induction l as [|b l IH]; simpl; intros s.
  - intros [= <-]. unfold bind. now rewrite Ha.
  - unfold bind. destruct (body b w s) as [[[]|y] s2]; [|discriminate].
    apply IH.
Qed.

Lemma for_each_dispatch_fails a l w :
  In a l ->
  ext_ok w (AirdropResolve a) = false ->
  forall s, exists x s', for_each l dispatch w s = (Raise x, s').
Proof.
  intros Hin Hfail. induction l as [|b l IH]; [contradiction|].
  intros s. simpl. unfold bind.
  destruct (dispatch b w s) as [[[]|x] s1] eqn:D; [|eauto].
  destruct Hin as [->|Hin]; [|now apply IH].
  rewrite dispatch_run, resolve_run in D. simpl in D.
  rewrite Hfail in D. discriminate.
Qed.

(** C4, as the code has it.  [frame] has no handler around [resolve].  When
    the turn of a due airdrop raises, after the turns before it returned,
    the sweep raises that same exception at once: the due airdrops after
    it in cache order get no log line and no [resolve] in this pass and
    keep their cache entry and document.  In particular a due airdrop
    whose distribution raises always makes the sweep raise, and a sweep
    that raises stopped at such a turn. *)
Theorem sweep_stops_at_first_failure w s :
  inv s ->
  ext_ok w DbFind = true ->
  let s0 := after_update s in
  (forall l1 a l2 s1 x s',
     to_resolve w (_state s0) = l1 ++ a :: l2 ->
     for_each l1 dispatch w s0 = (Ok tt, s1) ->
     dispatch a w s1 = (Raise x, s') ->
     frame w s = (Raise x, s') /\
     exists t, trace s' = trace s0 ++ t /\
       forall b, In b l2 ->
         ~ In (LogInfo (message_id b)) t /\
         ~ In (AirdropResolve b) t /\
         Dict.get (message_id b) (_state s') = Some b /\
         (forall d, _id d = message_id b ->
            (In d (airdrops_db s') <-> In d (airdrops_db s)))) /\
  (forall a, In a (to_resolve w (_state s0)) ->
     ext_ok w (AirdropResolve a) = false ->
     exists x s', frame w s = (Raise x, s')) /\
  (forall x s', frame w s = (Raise x, s') ->
     exists l1 a l2 s1,
       to_resolve w (_state s0) = l1 ++ a :: l2 /\
       for_each l1 dispatch w s0 = (Ok tt, s1) /\
       dispatch a w s1 = (Raise x, s')).
Proof.
  intros Hinv Hfind. cbv zeta. split; [|split].
  - intros l1 a l2 s1 x s' El H1 Ha. split.
    { rewrite frame_run, Hfind, El. eapply for_each_app_raise; eauto. }
    pose proof (for_each_snoc_raise _ _ _ _ _ _ _ _ H1 Ha) as Hrun.
    destruct (for_each_dispatch_trace _ _ _ _ _ Hrun) as (t & Ht & Hcalls).
    exists t. split; [exact Ht|]. intros b Hb.
    pose proof (to_resolve_nodup w (_state (after_update s)) (after_update_wf s Hinv)) as Hnd.
    rewrite El in Hnd. replace (l1 ++ a :: l2) with ((l1 ++ [a]) ++ l2) in *
      by now rewrite <- app_assoc.
    rewrite map_app in Hnd.
    assert (Hid : ~ In (message_id b) (map message_id (l1 ++ [a]))).
    { intros Hin. revert Hin. clear - Hnd Hb.
      induction (map message_id (l1 ++ [a])) as [|k ks IH]; simpl; [tauto|].
      inversion Hnd as [|? ? Hnotin Hnd']; subst.
      intros [->|Hin]; auto.
      apply Hnotin, in_or_app. right. now apply in_map. }
    assert (Hcached : Dict.get (message_id b) (_state (after_update s)) = Some b).
    { apply (due_cached w s b Hinv). rewrite El.
      apply in_or_app. now right. }
    destruct (for_each_dispatch_same_at _ _ _ _ _ _ Hid Hrun) as [Hc Hdb].
    repeat split.
    + intros Hin. destruct (Hcalls _ Hin) as (c & Hc' & Hcall).
      apply in_dispatch_calls_log in Hcall. apply Hid. rewrite Hcall. now apply in_map.
    + intros Hin. destruct (Hcalls _ Hin) as (c & Hc' & Hcall).
      apply in_dispatch_calls in Hcall. subst c. apply Hid. now apply in_map.
    + now rewrite Hc.
    + apply Hdb; auto.
    + apply Hdb; auto.
  - intros a Hin Hfail. rewrite frame_run, Hfind.
    now apply (for_each_dispatch_fails a).
  - intros x s'. rewrite frame_run, Hfind. intros H.
    destruct (for_each_raise_split _ _ _ _ _ _ H) as (l1 & a & l2 & s1 & El & H1 & Ha).
    exists l1, a, l2, s1. auto.
Qed.

Lemma sweep_stops_at_first_failure_witness :
  frame (Sample.failing 1200 300) Sample.s312 =
    (Raise (ExternalError (AirdropResolve Sample.ad3)),
     snd (frame (Sample.failing 1200 300) Sample.s312)) /\
  exists t,
    trace (snd (frame (Sample.failing 1200 300) Sample.s312)) =
      trace (after_update Sample.s312) ++ t /\
    ~ In (AirdropResolve Sample.ad1) t /\
    Dict.get 100 (_state (snd (frame (Sample.failing 1200 300) Sample.s312))) =
      Some Sample.ad1.
Proof.
  destruct (sweep_stops_at_first_failure (Sample.failing 1200 300) Sample.s312
              inv_sample_s312 eq_refl) as (Hstop & _ & _).
  destruct (Hstop [] Sample.ad3 [Sample.ad1] (after_update Sample.s312)
              (ExternalError (AirdropResolve Sample.ad3))
              (snd (frame (Sample.failing 1200 300) Sample.s312))
              eq_refl eq_refl eq_refl) as (Hraise & t & Ht & Hlater).
  split; [exact Hraise|]. exists t. split; [exact Ht|].
  destruct (Hlater Sample.ad1 (or_introl eq_refl)) as (_ & Hnot & Hkept & _).
  split; [exact Hnot | exact Hkept].
Defined.

(** * Further properties of the manager *)

(** ** Well-formedness along any series of calls *)

Lemma inv_run_op o : respects keeps_inv (run_op o).
Proof.
  destruct o; simpl.
  - exact inv_update.
  - exact inv_update.
  - exact inv_frame.
  - apply inv_new_airdrop.
  - apply inv_cancel.
  - apply inv_resolve.
Qed.

(** X1. Whatever calls are made on the manager, and whether they return or
    raise, the cache keeps one entry per id, each airdrop filed under its
    own message id, and the collection keeps its ids distinct; so a lookup
    by id can only return an airdrop with that message id. *)
Theorem reachable_states_well_formed calls s :
  inv s ->
  inv (run_ops calls s) /\
  (forall k a w s', get_airdrop (ById k) w (run_ops calls s) = (Ok a, s') ->
     message_id a = k).
Proof.
  intros Hinv.
  assert (H : inv (run_ops calls s)).
  { revert s Hinv. induction calls as [|[w o] calls IH]; simpl; intros s Hinv; auto.
    apply IH. destruct (run_op o w s) as [r s1] eqn:E. simpl.
    exact (inv_run_op o w s r s1 E Hinv). }
  split; [exact H|]. intros k a w s' G.
  apply get_airdrop_inv in G as [G _]. simpl in G.
  destruct H as [Hc _]. eapply cache_wf_key; eauto.
Qed.

Lemma reachable_states_well_formed_witness :
  inv (run_ops Sample.calls0 (__init__ [to_db_dict Sample.ad1; to_db_dict Sample.ad2])).
Proof.
  apply (reachable_states_well_formed Sample.calls0
           (__init__ [to_db_dict Sample.ad1; to_db_dict Sample.ad2])).
  split; [split|]; simpl.
  - constructor.
  - constructor.
  - unfold db_wf. simpl. repeat constructor; simpl; intuition discriminate.
Defined.

(** ** The cache never runs ahead of the collection *)

Section Preserves.
Variable P : MState -> Prop.

Lemma preserves_pure {A} (m : M A) :
  (forall w s, snd (m w s) = s) -> preserves P m.
Proof. intros H w s r s' E. specialize (H w s). rewrite E in H. simpl in H. now subst. Qed.

Lemma preserves_bind {A B} (m : M A) (f : A -> M B) :
  preserves P m -> (forall a, preserves P (f a)) -> preserves P (bind m f).
Proof.
  intros Hm Hf w s r s'. unfold bind.
  destruct (m w s) as [[a|x] s1] eqn:E.
  - intros E' Hs. eapply Hf; [exact E'|]. eapply Hm; eauto.
  - intros [= <- <-]. eapply Hm; eauto.
Qed.

Lemma preserves_for_each {A} (xs : list A) (body : A -> M unit) :
  (forall x, preserves P (body x)) -> preserves P (for_each xs body).
Proof.
  intros Hb. induction xs as [|x xs IH]; simpl.
  - apply preserves_pure. reflexivity.
  - apply preserves_bind; auto.
Qed.

Hypothesis P_record : forall e s, P s -> P (record e s).

Lemma preserves_call e : preserves P (call e).
Proof. intros w s r s'. unfold call. intros [= <- <-]. auto. Qed.

Lemma preserves_emit e : preserves P (emit e).
Proof. intros w s r s'. unfold emit. intros [= <- <-]. auto. Qed.

Lemma preserves_check e : preserves P (check e).
Proof. apply preserves_pure. reflexivity. Qed.

Lemma preserves_get_airdrop r : preserves P (get_airdrop r).
Proof.
  apply preserves_pure. intros w s. unfold get_airdrop, bind, get_state, raise, ret.
  now destruct (lookup r (_state s)).
Qed.
End Preserves.

Lemma _remove_entity_run a w s :
  _remove (ByEntity a) w s =
  let k := message_id a in
  match Dict.get k (_state s) with
  | None => (Raise (KeyError k), s)
  | Some _ =>
      let s2 := record (StateDel k)
                  {| _state := Dict.del k (_state s);
                     airdrops_db := airdrops_db s; trace := trace s |} in
      let s3 := record (PartialUnpin (channel_id a) k) s2 in
      if ext_ok w (PartialUnpin (channel_id a) k) then
        let s4 := record (DbDeleteOne k) s3 in
        if ext_ok w (DbDeleteOne k) then
          (Ok tt, {| _state := _state s4;
                     airdrops_db := delete_one k (airdrops_db s);
                     trace := trace s4 |})
        else (Raise (ExternalError (DbDeleteOne k)), s4)
      else (Raise (ExternalError (PartialUnpin (channel_id a) k)), s3)
  end.
Proof.
  run. destruct (Dict.get (message_id a) (_state s)); simpl; auto.
  destruct (ext_ok w (PartialUnpin _ _)); simpl; auto.
  destruct (ext_ok w (DbDeleteOne _)); simpl; auto.
Qed.

Lemma has_id_delete_one_other k k' db :
  k' <> k -> has_id k' (delete_one k db) = has_id k' db.
Proof.
  intros Hne. unfold has_id. induction db as [|d db IH]; simpl; auto.
  destruct (_id d =? k) eqn:E; simpl.
  - apply Z.eqb_eq in E. destruct (_id d =? k') eqn:E'; auto.
    apply Z.eqb_eq in E'. congruence.
  - now rewrite IH.
Qed.

Lemma has_id_app k db d : has_id k (db ++ [d]) = has_id k db || (_id d =? k).
Proof. unfold has_id. rewrite existsb_app. simpl. now rewrite orb_false_r. Qed.

Lemma get_del_some k k' (c : Dict.t Airdrop) :
  Dict.get k' (Dict.del k c) <> None -> k' <> k /\ Dict.get k' c <> None.
Proof.
  intros H. split.
  - intros ->. apply H. apply DictFacts.get_del_same.
  - intros G. apply H. now apply get_del_none.
Qed.

Lemma cached_stored_record e s : cached_stored s -> cached_stored (record e s).
Proof. intros H. exact H. Qed.

Lemma cached_stored__remove a : preserves cached_stored (_remove (ByEntity a)).
Proof.
  intros w s r s'. rewrite _remove_entity_run. cbv zeta.
  destruct (Dict.get (message_id a) (_state s)); [|now intros [= <- <-]].
  assert (Hdel : forall db, (forall k, Dict.get k (_state s) <> None -> has_id k db = true) ->
            forall k, Dict.get k (Dict.del (message_id a) (_state s)) <> None ->
                      has_id k db = true).
  { intros db H k Hk. apply get_del_some in Hk as [_ Hk]. auto. }
  destruct (ext_ok w (PartialUnpin _ _)); [|intros [= <- <-] H; exact (Hdel _ H)].
  destruct (ext_ok w (DbDeleteOne _)); intros [= <- <-] H; [|exact (Hdel _ H)].
  intros k Hk. simpl in *. apply get_del_some in Hk as [Hne Hk].
  rewrite has_id_delete_one_other by assumption. auto.
Qed.

Lemma cached_stored_resolve r : preserves cached_stored (resolve r).
Proof.
  unfold resolve. apply preserves_bind; [apply preserves_get_airdrop|]. intros a.
  apply preserves_bind; [apply preserves_call, cached_stored_record|]. intros _.
  apply cached_stored__remove.
Qed.

Lemma cached_stored_cancel r : preserves cached_stored (cancel r).
Proof.
  unfold cancel. apply preserves_bind; [apply preserves_get_airdrop|]. intros a.
  apply preserves_bind; [apply cached_stored__remove|]. intros _.
  repeat (apply preserves_bind;
          [first [apply preserves_call, cached_stored_record
                 | apply preserves_check]|]; intros _).
  apply preserves_call, cached_stored_record.
Qed.

Lemma cached_stored_update : preserves cached_stored update.
Proof.
  intros w s r s'. unfold update. rewrite _fetch_run.
  destruct (ext_ok w DbFind); intros [= <- <-] H; [|exact H].
  intros k Hk. simpl in *.
  destruct (has_id k (airdrops_db s)) eqn:E; auto.
  rewrite refreshed_absent in Hk by assumption. rewrite <- E. auto.
Qed.

Lemma cached_stored__add_from_message m a d c :
  preserves cached_stored (_add_from_message m a d c).
Proof.
  intros w s r s'. rewrite _add_from_message_run. cbv zeta.
  destruct (ext_ok w (DbInsertOne _)); [|now intros [= <- <-]].
  destruct (has_id (msg_id m) (airdrops_db s)); intros [= <- <-] H; [exact H|].
  intros k Hk. simpl in *. rewrite has_id_app. simpl.
  destruct (Z.eq_dec (msg_id m) k) as [->|Hne].
  - rewrite Z.eqb_refl. apply orb_true_r.
  - rewrite DictFacts.get_set_other in Hk by assumption. rewrite (H k Hk). reflexivity.
Qed.

Lemma cached_stored_new_airdrop ctx a d c :
  preserves cached_stored (new_airdrop ctx a d c).
Proof.
  unfold new_airdrop.
  apply preserves_bind; [now apply preserves_pure|]. intros w.
  apply preserves_bind; [apply preserves_call, cached_stored_record|]. intros _.
  destruct (negb _); [apply preserves_call, cached_stored_record|].
  repeat (apply preserves_bind;
          [first [apply preserves_call, cached_stored_record
                 | apply preserves_check
                 | apply preserves_emit, cached_stored_record
                 | apply cached_stored__add_from_message] | intros ?]).
  apply preserves_call, cached_stored_record.
Qed.

Lemma cached_stored_frame : preserves cached_stored frame.
Proof.
  unfold frame.
  apply preserves_bind; [apply cached_stored_update|]. intros _.
  apply preserves_bind; [now apply preserves_pure|]. intros w.
  apply preserves_bind; [now apply preserves_pure|]. intros c.
  apply preserves_for_each. intros a. unfold dispatch.
  apply preserves_bind; [apply preserves_emit, cached_stored_record|]. intros _.
  apply cached_stored_resolve.
Qed.

Lemma cached_stored_run_op o : preserves cached_stored (run_op o).
Proof.
  destruct o; simpl.
  - exact cached_stored_update.
  - exact cached_stored_update.
  - exact cached_stored_frame.
  - apply cached_stored_new_airdrop.
  - apply cached_stored_cancel.
  - apply cached_stored_resolve.
Qed.

(** X2. Creation inserts the document before it writes the cache, and
    removal deletes the cache entry before the document.  So after any
    series of calls on a new manager, returned or raised, every id in the
    cache has a document in the collection. *)
Theorem cache_within_collection calls :
  (forall s, cached_stored s -> cached_stored (run_ops calls s)) /\
  (forall db, cached_stored (run_ops calls (__init__ db))).
Proof.
  assert (H : forall s, cached_stored s -> cached_stored (run_ops calls s)).
  { induction calls as [|[w o] calls IH]; simpl; intros s Hs; auto.
    apply IH. destruct (run_op o w s) as [r s1] eqn:E. simpl.
    exact (cached_stored_run_op o w s r s1 E Hs). }
  split; [exact H|]. intros db. apply H. intros k Hk. now contradiction Hk.
Qed.

Lemma cache_within_collection_witness :
  cached_stored
    (run_ops Sample.calls0 (__init__ [to_db_dict Sample.ad1; to_db_dict Sample.ad2])).
Proof.
  exact (proj2 (cache_within_collection Sample.calls0)
           [to_db_dict Sample.ad1; to_db_dict Sample.ad2]).
Defined.

(** ** Cancellation *)

Lemma cancel_run r w s :
  cancel r w s =
  match lookup r (_state s) with
  | None => (Raise (AirdropNotFound r), s)
  | Some a =>
      match _remove (ByEntity a) w s with
      | (Ok _, s1) =>
          let c := channel_id a in
          let k := message_id a in
          let s2 := record (FetchMessage c k) s1 in
          if ext_ok w (FetchMessage c k) then
            let s3 := record (MessageUnpin k) s2 in
            if ext_ok w (MessageUnpin k) then
              if ext_ok w (AuthorAvatarUrl k) then
                (if ext_ok w (MessageEdit k) then Ok tt
                 else Raise (ExternalError (MessageEdit k)),
                 record (MessageEdit k) s3)
              else (Raise (ExternalError (AuthorAvatarUrl k)), s3)
            else (Raise (ExternalError (MessageUnpin k)), s3)
          else (Raise (ExternalError (FetchMessage c k)), s2)
      | (Raise x, s1) => (Raise x, s1)
      end
  end.
Proof.
  unfold cancel, bind at 1. unfold get_airdrop, bind at 1, get_state.
  destruct (lookup r (_state s)) as [a|]; simpl; auto.
  unfold bind at 1. destruct (_remove (ByEntity a) w s) as [[[]|x] s1]; auto.
  unfold bind, call, check.
  destruct (ext_ok w (FetchMessage _ _)); auto.
  destruct (ext_ok w (MessageUnpin _)); auto.
  destruct (ext_ok w (AuthorAvatarUrl _)); auto.
Qed.



(** X4. [cancel] removes the airdrop before it touches the message.  When
    one of the three message calls or the read of the author's avatar then
    raises, [cancel] raises with the airdrop already gone from the cache
    and the collection, and a second [cancel] by id raises
    [AirdropNotFound] without making any call. *)
Theorem cancel_raise_after_removal r a w s :
  inv s ->
  lookup r (_state s) = Some a ->
  Dict.get (message_id a) (_state s) <> None ->
  ext_ok w (PartialUnpin (channel_id a) (message_id a)) = true ->
  ext_ok w (DbDeleteOne (message_id a)) = true ->
  ext_ok w (FetchMessage (channel_id a) (message_id a)) = false \/
  ext_ok w (MessageUnpin (message_id a)) = false \/
  ext_ok w (AuthorAvatarUrl (message_id a)) = false \/
  ext_ok w (MessageEdit (message_id a)) = false ->
  exists e s',
    cancel r w s = (Raise (ExternalError e), s') /\
    In e [FetchMessage (channel_id a) (message_id a);
          MessageUnpin (message_id a); AuthorAvatarUrl (message_id a);
          MessageEdit (message_id a)] /\
    _state s' = Dict.del (message_id a) (_state s) /\
    airdrops_db s' = delete_one (message_id a) (airdrops_db s) /\
    Dict.get (the_id r) (_state s') = None /\
    has_id (the_id r) (airdrops_db s') = false /\
    (forall w', cancel (ById (the_id r)) w' s' =
                  (Raise (AirdropNotFound (ById (the_id r))), s')).
Proof.
  intros [Hc Hd] L G E1 E2 Hfail.
  pose proof (cache_wf_lookup _ _ _ Hc L) as Hid.
  rewrite cancel_run, L, (_remove_entity_ok a w s G E1 E2). cbv zeta.
  assert (Hgone : forall s', _state s' = Dict.del (message_id a) (_state s) ->
            airdrops_db s' = delete_one (message_id a) (airdrops_db s) ->
            Dict.get (the_id r) (_state s') = None /\
            has_id (the_id r) (airdrops_db s') = false /\
            (forall w', cancel (ById (the_id r)) w' s' =
                          (Raise (AirdropNotFound (ById (the_id r))), s'))).
  { intros s' Hs Hdb. rewrite <- Hid.
    assert (Hnone : Dict.get (message_id a) (_state s') = None)
      by (rewrite Hs; apply DictFacts.get_del_same).
    repeat split; auto.
    - rewrite Hdb. now apply delete_one_gone.
    - intros w'. rewrite cancel_run. simpl. now rewrite Hnone. }
  destruct (ext_ok w (FetchMessage _ _)) eqn:F1.
  2:{ do 2 eexists. split; [reflexivity|]. split; [simpl; tauto|].
      split; [reflexivity|]. split; [reflexivity|]. now apply Hgone. }
  destruct (ext_ok w (MessageUnpin _)) eqn:F2.
  2:{ do 2 eexists. split; [reflexivity|]. split; [simpl; tauto|].
      split; [reflexivity|]. split; [reflexivity|]. now apply Hgone. }
  destruct (ext_ok w (AuthorAvatarUrl _)) eqn:F3.
  2:{ do 2 eexists. split; [reflexivity|]. split; [simpl; tauto|].
      split; [reflexivity|]. split; [reflexivity|]. now apply Hgone. }
  destruct (ext_ok w (MessageEdit _)) eqn:F4.
  { destruct Hfail as [?|[?|[?|?]]]; discriminate. }
  do 2 eexists. split; [reflexivity|]. split; [simpl; tauto|].
  split; [reflexivity|]. split; [reflexivity|]. now apply Hgone.
Qed.

Lemma cancel_raise_after_removal_witness :
  exists e s',
    cancel (ById 200) (Sample.mute 1300) Sample.s12 = (Raise (ExternalError e), s') /\
    Dict.get 200 (_state s') = None /\
    has_id 200 (airdrops_db s') = false.
Proof.
  destruct (cancel_raise_after_removal (ById 200) Sample.ad2 (Sample.mute 1300)
              Sample.s12 inv_sample_s12 eq_refl)
    as (e & s' & H1 & _ & _ & _ & H2 & H3 & _).
  - discriminate.
  - reflexivity.
  - reflexivity.
  - left. reflexivity.
  - exists e, s'. repeat split; assumption.
Defined.

(** ** A removal that stops half way *)

(** X5. [_remove] deletes the cache entry, then unpins, then deletes the
    document.  When the unpin raises inside [resolve], the reward has been
    distributed and the cache entry is gone, but the document stays; the
    next sweep reads it back and, when the test of line 114 holds of it,
    distributes the same airdrop a second time. *)
Theorem unpin_failure_resolves_again r a d w w' s :
  inv s ->
  lookup r (_state s) = Some a ->
  Dict.get (message_id a) (_state s) <> None ->
  In d (airdrops_db s) ->
  airdrop_of_doc d = a ->
  ext_ok w (AirdropResolve a) = true ->
  ext_ok w (PartialUnpin (channel_id a) (message_id a)) = false ->
  (forall e, ext_ok w' e = true) ->
  ended w' a && (ends_in w' a <=? 0) = true ->
  exists s1 s2 t2 t3,
    resolve r w s =
      (Raise (ExternalError (PartialUnpin (channel_id a) (message_id a))), s1) /\
    Dict.get (message_id a) (_state s1) = None /\
    In d (airdrops_db s1) /\
    frame w' s1 = (Ok tt, s2) /\
    trace s2 = trace s ++ AirdropResolve a :: t2 ++ AirdropResolve a :: t3.
Proof.
  intros Hinv L G Hd Ha E1 E2 Hok Hdue. apply due_iff in Hdue.
  rewrite resolve_run, L. cbv zeta. rewrite E1, E2.
  destruct (Dict.get (message_id a) (_state s)) eqn:G'; [clear G|congruence].
  eexists. 
  set (s1 := record (PartialUnpin (channel_id a) (message_id a)) _).
  assert (Hinv1 : inv s1).
  { destruct Hinv as [Hc Hdb]. split; simpl; [now apply cache_wf_del | exact Hdb]. }
  assert (Hcached : Dict.get (message_id a) (_state (after_update s1)) = Some a).
  { simpl. rewrite <- Ha at 1 3. change (message_id (airdrop_of_doc d)) with (_id d).
    apply refreshed_present; [apply Hinv | exact Hd]. }
  assert (Hin : In a (to_resolve w' (_state (after_update s1))))
    by (apply due_cached; auto).
  pose proof (to_resolve_nodup w' _ (after_update_wf s1 Hinv1)) as Hnd.
  assert (Hpresent : forall b, In b (to_resolve w' (_state (after_update s1))) ->
            Dict.get (message_id b) (_state (after_update s1)) <> None).
  { intros b Hb. apply due_cached in Hb as [Hb _]; auto. congruence. }
  destruct (in_split _ _ Hin) as (l1 & l2 & El).
  exists (fold_left dispatched (to_resolve w' (_state (after_update s1))) (after_update s1)).
  exists ([StateDel (message_id a); PartialUnpin (channel_id a) (message_id a);
           DbFind; StateUpdate] ++ flat_map dispatch_calls l1 ++ [LogInfo (message_id a)]).
  exists ([StateDel (message_id a); PartialUnpin (channel_id a) (message_id a);
           DbDeleteOne (message_id a)] ++ flat_map dispatch_calls l2).
  split; [reflexivity|]. split; [simpl; apply DictFacts.get_del_same|].
  split; [exact Hd|]. split.
  - rewrite frame_run, (Hok DbFind). now apply for_each_dispatch_ok.
  - rewrite swept_trace, El, flat_map_app. simpl.
    repeat (rewrite <- app_assoc; simpl). reflexivity.
Qed.

Lemma unpin_failure_resolves_again_witness :
  exists s1 s2 t2 t3,
    resolve (ById 100) (Sample.pinless 1100) Sample.s12 =
      (Raise (ExternalError (PartialUnpin 10 100)), s1) /\
    frame (Sample.calm 1200) s1 = (Ok tt, s2) /\
    trace s2 = trace Sample.s12 ++
               AirdropResolve Sample.ad1 :: t2 ++ AirdropResolve Sample.ad1 :: t3.
Proof.
  destruct (unpin_failure_resolves_again (ById 100) Sample.ad1 (to_db_dict Sample.ad1)
              (Sample.pinless 1100) (Sample.calm 1200) Sample.s12 inv_sample_s12 eq_refl)
    as (s1 & s2 & t2 & t3 & H1 & _ & _ & H2 & H3).
  - discriminate.
  - simpl. now left.
  - reflexivity.
  - reflexivity.
  - reflexivity.
  - reflexivity.
  - reflexivity.
  - exists s1, s2, t2, t3. repeat split; assumption.
Defined.

(** ** The command that creates an airdrop *)

Lemma new_airdrop_run ctx amount0 duration channel w s :
  can_afford w (to_contract_value w amount0) = true ->
  ext_ok w (CanAfford (to_contract_value w amount0)) = true ->
  ext_ok w CtxRespond = true ->
  ext_ok w (EmbedTimestamp (now w + duration)) = true ->
  ext_ok w BotAvatarUrl = true ->
  ext_ok w (ChannelSend (chan_id (target_channel ctx channel))) = true ->
  new_airdrop ctx amount0 duration channel w s =
  let ch := target_channel ctx channel in
  let m := sent_id w (chan_id ch) in
  match _add_from_message (anchor w ch) amount0 duration (Some ch) w
          (record (ChannelSend (chan_id ch))
             (record CtxRespond
                (record (CanAfford (to_contract_value w amount0)) s))) with
  | (Ok e, s4) =>
      let s6 := record (MessageEdit m) (record (ViewAddItem e) s4) in
      if ext_ok w (MessageEdit m) then
        (if ext_ok w (MessagePin m) then Ok tt
         else Raise (ExternalError (MessagePin m)),
         record (MessagePin m) s6)
      else (Raise (ExternalError (MessageEdit m)), s6)
  | (Raise x, s4) => (Raise x, s4)
  end.
Proof.
  intros Haff E1 E2 Et Eb E3. cbv zeta.
  unfold new_airdrop, bind at 1, ask. unfold bind at 1, call at 1. rewrite E1, Haff.
  change (negb true) with false. cbv iota. fold (target_channel ctx channel).
  unfold bind at 1, call at 1. rewrite E2.
  unfold bind at 1, check at 1. rewrite Et.
  unfold bind at 1, check at 1. rewrite Eb.
  unfold bind at 1, call at 1. rewrite E3.
  unfold bind at 1. fold (anchor w (target_channel ctx channel)).
  destruct (_add_from_message _ _ _ _ w _) as [[e|x] s4]; [|reflexivity].
  unfold bind, emit, call. simpl.
  destruct (ext_ok w (MessageEdit _)); reflexivity.
Qed.

(** X6. When the amount is affordable, every call returns, the
    announcement can be built (the end date is representable and the bot
    has an avatar, lines 81-85) and the id of the sent message is new to
    the collection, [new_airdrop] returns after these steps in this order:
    affordability check, confirmation to the invoker, send to the given
    channel (the invoking channel when none is given), insert of the
    document, write of the cache, button, edit, pin.  The cache then holds
    the airdrop under the id of the sent message. *)
Theorem new_airdrop_creates ctx amount0 duration channel w s :
  let ch := target_channel ctx channel in
  let m := sent_id w (chan_id ch) in
  let e := from_message (anchor w ch) amount0 (now w + duration) (Some ch) in
  can_afford w (to_contract_value w amount0) = true ->
  (forall x, ext_ok w x = true) ->
  has_id m (airdrops_db s) = false ->
  exists s',
    new_airdrop ctx amount0 duration channel w s = (Ok tt, s') /\
    _state s' = Dict.set m e (_state s) /\
    airdrops_db s' = airdrops_db s ++ [to_db_dict e] /\
    trace s' = trace s ++
      [CanAfford (to_contract_value w amount0); CtxRespond; ChannelSend (chan_id ch);
       DbInsertOne (to_db_dict e); StateSet m e; ViewAddItem e;
       MessageEdit m; MessagePin m] /\
    (forall w', get_airdrop (ById m) w' s' = (Ok e, s')).
Proof.
  intros ch m e Haff Hok Hnew.
  rewrite new_airdrop_run by auto. cbv zeta. fold ch. fold m.
  rewrite _add_from_message_run. cbv zeta. fold e.
  rewrite !Hok. change (msg_id (anchor w ch)) with m. simpl airdrops_db.
  rewrite Hnew. eexists. split; [reflexivity|]. simpl.
  repeat split.
  - now rewrite <- !app_assoc.
  - intros w'. unfold get_airdrop, bind, get_state. simpl.
    now rewrite DictFacts.get_set_same.
Qed.

Lemma new_airdrop_creates_witness :
  exists s',
    new_airdrop Sample.ctx0 100 60 None (Sample.calm 1000) Sample.s12 = (Ok tt, s') /\
    get_airdrop (ById 400) (Sample.calm 1000) s' =
      (Ok (mkAirdrop 1 10 400 100 1060 []), s').
Proof.
  destruct (new_airdrop_creates Sample.ctx0 100 60 None (Sample.calm 1000) Sample.s12)
    as (s' & H1 & _ & _ & _ & H2).
  - reflexivity.
  - reflexivity.
  - reflexivity.
  - exists s'. split; [exact H1 | exact (H2 (Sample.calm 1000))].
Defined.

(** X7. [new_airdrop] stores and caches the airdrop before it edits and
    pins the anchor message.  When everything up to the insert went
    through and the edit or the pin raises, the command raises, yet the
    airdrop is in the collection and in the cache, among the values a
    sweep goes through. *)
Theorem new_airdrop_raise_keeps_airdrop ctx amount0 duration channel w s :
  let ch := target_channel ctx channel in
  let m := sent_id w (chan_id ch) in
  let e := from_message (anchor w ch) amount0 (now w + duration) (Some ch) in
  can_afford w (to_contract_value w amount0) = true ->
  ext_ok w (CanAfford (to_contract_value w amount0)) = true ->
  ext_ok w CtxRespond = true ->
  ext_ok w (EmbedTimestamp (now w + duration)) = true ->
  ext_ok w BotAvatarUrl = true ->
  ext_ok w (ChannelSend (chan_id ch)) = true ->
  ext_ok w (DbInsertOne (to_db_dict e)) = true ->
  has_id m (airdrops_db s) = false ->
  ext_ok w (MessageEdit m) = false \/ ext_ok w (MessagePin m) = false ->
  exists x s',
    new_airdrop ctx amount0 duration channel w s = (Raise (ExternalError x), s') /\
    (x = MessageEdit m \/ x = MessagePin m) /\
    Dict.get m (_state s') = Some e /\
    In (to_db_dict e) (airdrops_db s') /\
    In e (Dict.values (_state s')).
Proof.
  intros ch m e Haff E1 E2 Et Eb E3 E4 Hnew Hfail.
  rewrite new_airdrop_run by auto. cbv zeta. fold ch. fold m.
  rewrite _add_from_message_run. cbv zeta. fold e.
  rewrite E4. change (msg_id (anchor w ch)) with m. simpl airdrops_db.
  rewrite Hnew.
  assert (Hval : forall c, In e (Dict.values (Dict.set m e c))).
  { intros c. unfold Dict.values. apply in_map_iff. exists (m, e).
    split; [reflexivity|]. apply DictFacts.get_in, DictFacts.get_set_same. }
  destruct (ext_ok w (MessageEdit m)) eqn:F1.
  - destruct (ext_ok w (MessagePin m)) eqn:F2.
    { destruct Hfail; discriminate. }
    do 2 eexists. split; [reflexivity|]. split; [now right|]. simpl.
    split; [apply DictFacts.get_set_same|]. split; [|apply Hval].
    apply in_or_app. right. now left.
  - do 2 eexists. split; [reflexivity|]. split; [now left|]. simpl.
    split; [apply DictFacts.get_set_same|]. split; [|apply Hval].
    apply in_or_app. right. now left.
Qed.

Lemma new_airdrop_raise_keeps_airdrop_witness :
  exists x s',
    new_airdrop Sample.ctx0 100 60 None (Sample.unpinnable 1000) Sample.s12 =
      (Raise (ExternalError x), s') /\
    Dict.get 400 (_state s') = Some (mkAirdrop 1 10 400 100 1060 []).
Proof.
  destruct (new_airdrop_raise_keeps_airdrop Sample.ctx0 100 60 None
              (Sample.unpinnable 1000) Sample.s12)
    as (x & s' & H1 & _ & H2 & _).
  - reflexivity.
  - reflexivity.
  - reflexivity.
  - reflexivity.
  - reflexivity.
  - reflexivity.
  - reflexivity.
  - reflexivity.
  - right. reflexivity.
  - exists x, s'. split; [exact H1 | exact H2].
Defined.

(** ** More on the dict operations *)

Lemma set_fresh {V} k (v : V) d :
  ~ In k (Dict.keys d) -> Dict.set k v d = d ++ [(k, v)].
Proof.
  induction d as [|[k' v'] d IH]; simpl; auto.
  intros H. destruct (k =? k') eqn:E.
  - apply Z.eqb_eq in E. subst. exfalso. auto.
  - f_equal. apply IH. auto.
Qed.

Lemma set_same {V} k (v : V) d : Dict.get k d = Some v -> Dict.set k v d = d.
Proof.
  induction d as [|[k' v'] d IH]; simpl; [discriminate|].
  destruct (k =? k') eqn:E.
  - apply Z.eqb_eq in E. now intros [= ->]; subst.
  - intros H. now rewrite IH.
Qed.

Lemma del_absent {V} k (d : Dict.t V) : ~ In k (Dict.keys d) -> Dict.del k d = d.
Proof.
  unfold Dict.del. induction d as [|[k' v'] d IH]; simpl; auto.
  intros H. destruct (k =? k') eqn:E; simpl.
  - apply Z.eqb_eq in E. subst. exfalso. auto.
  - f_equal. apply IH. auto.
Qed.

Lemma del_set_fresh {V} k (v : V) d :
  ~ In k (Dict.keys d) -> Dict.del k (Dict.set k v d) = d.
Proof.
  intros H. rewrite set_fresh by assumption. unfold Dict.del.
  rewrite filter_app. simpl. rewrite Z.eqb_refl. simpl. rewrite app_nil_r.
  now apply del_absent.
Qed.

Lemma fold_set_fresh {V X} (f : X -> Z) (g : X -> V) xs : forall d,
  NoDup (map f xs) ->
  (forall x, In x xs -> ~ In (f x) (Dict.keys d)) ->
  fold_left (fun acc x => Dict.set (f x) (g x) acc) xs d =
  d ++ map (fun x => (f x, g x)) xs.
Proof.
  induction xs as [|x xs IH]; simpl; intros d Hnd Hd.
  - now rewrite app_nil_r.
  - inversion Hnd as [|? ? Hnotin Hnd']; subst.
    rewrite set_fresh by auto. rewrite IH; auto.
    + now rewrite <- app_assoc.
    + intros y Hy Hin. unfold Dict.keys in Hin. rewrite map_app in Hin.
      apply in_app_or in Hin as [Hin|[Hin|[]]].
      * exact (Hd y (or_intror Hy) Hin).
      * simpl in Hin. apply Hnotin. rewrite Hin. now apply in_map.
Qed.

Lemma fold_set_noop {V X} (f : X -> Z) (g : X -> V) xs d :
  (forall x, In x xs -> Dict.get (f x) d = Some (g x)) ->
  fold_left (fun acc x => Dict.set (f x) (g x) acc) xs d = d.
Proof.
  induction xs as [|x xs IH]; simpl; intros H; auto.
  rewrite set_same by auto. apply IH. auto.
Qed.

Lemma delete_one_last k d db :
  has_id k db = false -> _id d = k -> delete_one k (db ++ [d]) = db.
Proof.
  intros H Hd. induction db as [|d' db IH]; simpl in *.
  - apply Z.eqb_eq in Hd. now rewrite Hd.
  - apply orb_false_iff in H as [H1 H2]. rewrite H1. f_equal. auto.
Qed.

(** ** Loading and reloading the cache *)

Lemma refreshed_fresh c db :
  db_wf db ->
  (forall k, In k (Dict.keys c) -> has_id k db = false) ->
  refreshed c db = c ++ map (fun d => (_id d, airdrop_of_doc d)) db.
Proof.
  intros Hwf Hc. unfold refreshed, Dict.update, Dict.comprehension.
  rewrite (fold_set_fresh message_id (fun a => a)).
  - simpl. rewrite map_map. simpl.
    rewrite (fold_set_fresh fst snd).
    + f_equal. rewrite map_map. reflexivity.
    + rewrite map_map. simpl. exact Hwf.
    + intros [k a] Hin. simpl. apply in_map_iff in Hin as (d & [= <- <-] & Hd).
      intros Hk. apply Hc in Hk. apply has_id_false_iff in Hk. apply Hk.
      now apply in_map.
  - now rewrite ids_of_fetched.
  - intros x _ [].
Qed.

(** X8. On a new manager, a [setup] whose read returns fills the cache
    with exactly the airdrops of the collection, each under its document's
    id and in the collection's order, which is then the order in which a
    sweep goes through them. *)
Theorem setup_loads_collection w db :
  db_wf db ->
  ext_ok w DbFind = true ->
  setup w (__init__ db) =
    (Ok tt, {| _state := map (fun d => (_id d, airdrop_of_doc d)) db;
               airdrops_db := db;
               trace := [DbFind; StateUpdate] |}) /\
  Dict.values (_state (snd (setup w (__init__ db)))) = map airdrop_of_doc db.
Proof.
  intros Hwf Hfind.
  assert (E : setup w (__init__ db) =
    (Ok tt, {| _state := map (fun d => (_id d, airdrop_of_doc d)) db;
               airdrops_db := db; trace := [DbFind; StateUpdate] |})).
  { unfold setup, update. rewrite _fetch_run, Hfind. simpl.
    rewrite refreshed_fresh; auto. intros k []. }
  split; [exact E|]. rewrite E. simpl. unfold Dict.values. now rewrite map_map.
Qed.

Lemma setup_loads_collection_witness :
  Dict.values
    (_state (snd (setup (Sample.calm 1000)
                    (__init__ [to_db_dict Sample.ad3; to_db_dict Sample.ad1])))) =
  [Sample.ad3; Sample.ad1].
Proof.
  destruct (setup_loads_collection (Sample.calm 1000)
              [to_db_dict Sample.ad3; to_db_dict Sample.ad1]) as [_ H].
  - unfold db_wf. simpl. repeat constructor; simpl; intuition discriminate.
  - reflexivity.
  - exact H.
Defined.

Lemma refreshed_idem c db : refreshed (refreshed c db) db = refreshed c db.
Proof.
  unfold refreshed at 1. unfold Dict.update.
  apply (fold_set_noop fst snd). intros kv Hin.
  unfold refreshed, Dict.update.
  apply (DictFacts.fold_set_in fst snd kv); [|exact Hin].
  apply comprehension_wf.
Qed.

(** X9. A refresh repeated while the collection has not changed does
    nothing more: after two reads that both return, the cache is what it
    was after the first, entry for entry and in the same order, and the
    collection is untouched. *)
Theorem update_twice w1 w2 s s1 s2 :
  update w1 s = (Ok tt, s1) ->
  update w2 s1 = (Ok tt, s2) ->
  _state s2 = _state s1 /\ airdrops_db s2 = airdrops_db s /\
  trace s2 = trace s ++ [DbFind; StateUpdate; DbFind; StateUpdate].
Proof.
  unfold update. rewrite !_fetch_run.
  destruct (ext_ok w1 DbFind); [|discriminate]. intros [= <-]. simpl.
  destruct (ext_ok w2 DbFind); [|discriminate]. intros [= <-]. simpl.
  repeat split.
  - apply refreshed_idem.
  - now rewrite <- app_assoc.
Qed.

Lemma update_twice_witness :
  _state (snd (update (Sample.calm 1100) (snd (update (Sample.calm 1000) Sample.stale)))) =
  _state (snd (update (Sample.calm 1000) Sample.stale)).
Proof.
  apply (update_twice (Sample.calm 1000) (Sample.calm 1100) Sample.stale
           (snd (update (Sample.calm 1000) Sample.stale))
           (snd (update (Sample.calm 1100) (snd (update (Sample.calm 1000) Sample.stale)))));
    reflexivity.
Defined.

(** ** Sweeps with nothing to do *)

Lemma filter_none {A} (p : A -> bool) l :
  (forall x, In x l -> p x = false) -> filter p l = [].
Proof.
  induction l as [|x l IH]; simpl; intros H; auto.
  rewrite (H x (or_introl eq_refl)). apply IH. auto.
Qed.

(** X10. When the read returns and the test of line 114 fails for every
    cached airdrop (in particular when the cache and the collection are
    empty), a sweep returns having done nothing but the refresh: no log
    line, no [resolve], no removal. *)
Theorem frame_nothing_due w s :
  ext_ok w DbFind = true ->
  (forall a, In a (Dict.values (_state (after_update s))) ->
             ended w a && (ends_in w a <=? 0) = false) ->
  frame w s = (Ok tt, after_update s) /\
  airdrops_db (snd (frame w s)) = airdrops_db s /\
  trace (snd (frame w s)) = trace s ++ [DbFind; StateUpdate].
Proof.
  intros Hfind Hnone.
  assert (E : frame w s = (Ok tt, after_update s)).
  { rewrite frame_run, Hfind. unfold to_resolve. now rewrite filter_none. }
  rewrite E. auto.
Qed.

Lemma frame_nothing_due_witness :
  frame (Sample.calm 800) Sample.s312 = (Ok tt, after_update Sample.s312).
Proof.
  apply (frame_nothing_due (Sample.calm 800) Sample.s312).
  - reflexivity.
  - simpl. intros a [<-|[<-|[<-|[]]]]; reflexivity.
Defined.

Lemma to_resolve_same_clock w w' c : now w' = now w -> to_resolve w' c = to_resolve w c.
Proof.
  intros H. unfold to_resolve, ended, ends_in. now rewrite H.
Qed.

(** X11. After a sweep in which every call returned, a second sweep at the
    same clock value finds nothing to resolve: it returns after its refresh
    alone, so no airdrop is distributed twice by the two. *)
Theorem second_sweep_idle w w' s s1 :
  inv s ->
  (forall e, ext_ok w e = true) ->
  frame w s = (Ok tt, s1) ->
  now w' = now w ->
  ext_ok w' DbFind = true ->
  to_resolve w' (_state (after_update s1)) = [] /\
  frame w' s1 = (Ok tt, after_update s1).
Proof.
  intros Hinv Hok Hrun Hclock Hfind.
  assert (Hinv1 : inv s1) by exact (inv_frame w s _ _ Hrun Hinv).
  pose proof Hrun as Hloop. rewrite frame_run, (Hok DbFind) in Hloop.
  set (l := to_resolve w (_state (after_update s))) in *.
  assert (Hnd : NoDup (map message_id l))
    by (apply to_resolve_nodup; now apply after_update_wf).
  assert (Hpresent : forall a, In a l ->
            Dict.get (message_id a) (_state (after_update s)) <> None).
  { intros a Ha. apply due_cached in Ha as [Ha _]; auto. congruence. }
  pose proof Hloop as Hfold. rewrite for_each_dispatch_ok in Hfold by auto.
  assert (Hs1 : fold_left dispatched l (after_update s) = s1) by congruence.
  clear Hfold.
  assert (Hgone : forall a, In a l ->
            Dict.get (message_id a) (_state s1) = None /\
            has_id (message_id a) (airdrops_db s1) = false).
  { intros a Ha. rewrite <- Hs1. apply swept_gone; auto. apply Hinv. }
  assert (Hempty : to_resolve w (_state (after_update s1)) = []).
  { destruct (to_resolve w (_state (after_update s1))) as [|a rest] eqn:El; auto.
    exfalso.
    assert (Ha : In a (to_resolve w (_state (after_update s1))))
      by (rewrite El; now left).
    apply due_cached in Ha as [Ha Hdue]; auto.
    set (k := message_id a) in *.
    destruct (in_dec Z.eq_dec k (map message_id l)) as [Hin|Hout].
    - apply in_map_iff in Hin as (b & Eb & Hb).
      destruct (Hgone b Hb) as [G1 G2]. rewrite Eb in G1, G2.
      simpl in Ha. unfold k in *.
      rewrite refreshed_absent in Ha by assumption. congruence.
    - destruct (for_each_dispatch_same_at _ _ _ _ _ _ Hout Hloop) as [Hc Hdb].
      apply Hout.
      assert (Hcached0 : Dict.get k (_state (after_update s)) = Some a).
      { simpl in Ha. destruct (has_id k (airdrops_db s1)) eqn:Eh.
        - unfold has_id in Eh. apply existsb_exists in Eh as (d & Hd & Ed).
          apply Z.eqb_eq in Ed.
          rewrite <- Ed in Ha. rewrite refreshed_present in Ha; auto; [|apply Hinv1].
          inversion Ha as [Ea]. simpl. rewrite <- Ed.
          rewrite refreshed_present; [reflexivity | apply Hinv |].
          apply (Hdb d Ed). exact Hd.
        - rewrite refreshed_absent in Ha by assumption.
          now rewrite <- Hc. }
      apply in_map. apply due_cached; auto. }
  assert (Hempty' : to_resolve w' (_state (after_update s1)) = [])
    by (rewrite (to_resolve_same_clock w w'); auto).
  split; [exact Hempty'|].
  rewrite frame_run, Hfind, Hempty'. reflexivity.
Qed.

Lemma second_sweep_idle_witness :
  frame (Sample.calm 1200) (snd (frame (Sample.calm 1200) Sample.s312)) =
  (Ok tt, after_update (snd (frame (Sample.calm 1200) Sample.s312))).
Proof.
  apply (second_sweep_idle (Sample.calm 1200) (Sample.calm 1200) Sample.s312
           (snd (frame (Sample.calm 1200) Sample.s312)) inv_sample_s312);
    reflexivity.
Defined.

(** ** Creation undone by cancellation *)

(** X12. A create followed by a cancel by the anchor's id, all calls
    returning and the message's author having an avatar (line 102), puts
    the cache and the collection back exactly as they were before the
    create (when the id was not cached then); the cancel makes its six
    calls and never the distribution. *)
Theorem create_then_cancel message amount0 duration channel w w' s e s1 :
  _add_from_message message amount0 duration channel w s = (Ok e, s1) ->
  Dict.get (msg_id message) (_state s) = None ->
  (forall x, ext_ok w' x = true) ->
  exists s2,
    cancel (ById (msg_id message)) w' s1 = (Ok tt, s2) /\
    _state s2 = _state s /\
    airdrops_db s2 = airdrops_db s /\
    trace s2 = trace s1 ++ cancel_calls e.
Proof.
  rewrite _add_from_message_run. cbv zeta.
  destruct (ext_ok w (DbInsertOne _)); [|discriminate].
  destruct (has_id (msg_id message) (airdrops_db s)) eqn:Hnew; [discriminate|].
  intros [= <- <-] Hfresh Hok.
  set (e := from_message message amount0 (now w + duration) channel).
  rewrite cancel_run. simpl lookup. rewrite DictFacts.get_set_same.
  change (message_id e) with (msg_id message).
  rewrite _remove_entity_ok; simpl; auto.
  - rewrite !Hok. eexists. split; [reflexivity|]. simpl.
    change (message_id e) with (msg_id message).
    repeat split.
    + apply del_set_fresh. now apply DictFacts.get_none_keys.
    + now apply delete_one_last.
    + now rewrite <- !app_assoc.
  - change (message_id e) with (msg_id message).
    rewrite DictFacts.get_set_same. discriminate.
Qed.

Lemma create_then_cancel_witness :
  exists s2,
    cancel (ById 400) (Sample.calm 1010)
      (snd (_add_from_message (mkMessage 400 (mkChannel 10 1)) 100 60 None
              (Sample.calm 1000) Sample.s12)) = (Ok tt, s2) /\
    _state s2 = _state Sample.s12 /\
    airdrops_db s2 = airdrops_db Sample.s12.
Proof.
  destruct (create_then_cancel (mkMessage 400 (mkChannel 10 1)) 100 60 None
              (Sample.calm 1000) (Sample.calm 1010) Sample.s12
              (mkAirdrop 1 10 400 100 1060 [])
              (snd (_add_from_message (mkMessage 400 (mkChannel 10 1)) 100 60 None
                      (Sample.calm 1000) Sample.s12)))
    as (s2 & H1 & H2 & H3 & _).
  - reflexivity.
  - reflexivity.
  - reflexivity.
  - exists s2. repeat split; assumption.
Defined.

(** ** One airdrop at a time *)

Lemma cancel_by_lookup r a w s :
  lookup r (_state s) = Some a -> cancel r w s = cancel (ByEntity a) w s.
Proof. intros L. rewrite !cancel_run. simpl. now rewrite L. Qed.

Lemma resolve_by_lookup r a w s :
  lookup r (_state s) = Some a -> resolve r w s = resolve (ByEntity a) w s.
Proof. intros L. rewrite !resolve_run. simpl. now rewrite L. Qed.

(** X13. A [cancel] or [resolve], whether it returns or raises at any
    point, leaves every other airdrop alone: for an id other than the one
    referred to, the cache entry is the same and the collection holds the
    same documents. *)
Theorem terminal_touches_one_id op r w s res s' k :
  inv s ->
  terminate op r w s = (res, s') ->
  k <> the_id r ->
  Dict.get k (_state s') = Dict.get k (_state s) /\
  (forall d, _id d = k -> (In d (airdrops_db s') <-> In d (airdrops_db s))).
Proof.
  intros [Hc _] H Hk.
  destruct (lookup r (_state s)) as [a|] eqn:L.
  - pose proof (cache_wf_lookup _ _ _ Hc L) as Hid.
    assert (Hne : message_id a <> k) by congruence.
    destruct op; simpl in H.
    + rewrite (cancel_by_lookup r a w s L) in H.
      refine (respects_cancel (same_at_compatible k) (ByEntity a) _ w s res s' H).
      now apply may_remove_entity.
    + rewrite (resolve_by_lookup r a w s L) in H.
      refine (respects_resolve (same_at_compatible k) (ByEntity a) _ w s res s' H).
      now apply may_remove_entity.
  - assert (s' = s).
    { destruct op; simpl in H.
      - rewrite cancel_run, L in H. now inversion H.
      - rewrite resolve_run, L in H. now inversion H. }
    subst. split; [reflexivity | tauto].
Qed.

Lemma terminal_touches_one_id_witness :
  Dict.get 100 (_state (snd (cancel (ById 200) (Sample.mute 1300) Sample.s12))) =
  Dict.get 100 (_state Sample.s12).
Proof.
  apply (terminal_touches_one_id Cancel (ById 200) (Sample.mute 1300) Sample.s12
           (fst (cancel (ById 200) (Sample.mute 1300) Sample.s12))
           (snd (cancel (ById 200) (Sample.mute 1300) Sample.s12)) 100
           inv_sample_s12).
  - reflexivity.
  - discriminate.
Defined.

(** ** At most one distribution per airdrop and pass *)

Lemma dispatch_prefix a w s res s' :
  dispatch a w s = (res, s') ->
  exists n, trace s' = trace s ++ firstn n (dispatch_calls a) /\
            (res = Ok tt -> firstn n (dispatch_calls a) = dispatch_calls a).
Proof.
  rewrite dispatch_run, resolve_run. simpl.
  destruct (ext_ok w (AirdropResolve a)).
  2:{ intros [= <- <-]. exists 2%nat. simpl. rewrite !app_cons_assoc.
      split; [reflexivity | discriminate]. }
  destruct (Dict.get (message_id a) (_state s)).
  2:{ intros [= <- <-]. exists 2%nat. simpl. rewrite !app_cons_assoc.
      split; [reflexivity | discriminate]. }
  destruct (ext_ok w (PartialUnpin _ _)).
  2:{ intros [= <- <-]. exists 4%nat. simpl. rewrite !app_cons_assoc.
      split; [reflexivity | discriminate]. }
  destruct (ext_ok w (DbDeleteOne _)); intros [= <- <-]; exists 5%nat; simpl;
    rewrite !app_cons_assoc; split; try reflexivity; discriminate.
Qed.

Lemma for_each_dispatch_prefix l w s res s' :
  for_each l dispatch w s = (res, s') ->
  exists n, trace s' = trace s ++ firstn n (flat_map dispatch_calls l).
Proof.
  revert s. induction l as [|a l IH]; intros s.
  - simpl. intros [= <- <-]. exists 0%nat. simpl. now rewrite app_nil_r.
  - change (for_each (a :: l) dispatch)
      with (bind (dispatch a) (fun _ => for_each l dispatch)).
    unfold bind. destruct (dispatch a w s) as [[[]|x] s1] eqn:D.
    + intros H. apply dispatch_prefix in D as (n1 & Ht1 & Hfull).
      apply IH in H as (n2 & Ht2).
      exists (5 + n2)%nat. rewrite Ht2, Ht1, (Hfull eq_refl), <- app_assoc.
      reflexivity.
    + intros [= <- <-]. apply dispatch_prefix in D as (n1 & Ht1 & _).
      destruct n1 as [|[|[|[|[|n1]]]]];
        [exists 0%nat|exists 1%nat|exists 2%nat|exists 3%nat|exists 4%nat|exists 5%nat];
        simpl in Ht1; rewrite ?firstn_nil in Ht1; exact Ht1.
Qed.

Lemma dispatch_calls_id a b e :
  In e (dispatch_calls a) -> In e (dispatch_calls b) -> message_id a = message_id b.
Proof.
  simpl. intros [<-|[<-|[<-|[<-|[<-|[]]]]]] [H|[H|[H|[H|[H|[]]]]]];
    try discriminate; now inversion H.
Qed.

Lemma dispatch_calls_nodup a : NoDup (dispatch_calls a).
Proof.
  unfold dispatch_calls, resolve_calls.
  repeat constructor; simpl; intuition discriminate.
Qed.

Lemma flat_dispatch_calls_nodup l :
  NoDup (map message_id l) -> NoDup (flat_map dispatch_calls l).
Proof.
  induction l as [|a l IH]; intros Hnd.
  - constructor.
  - inversion Hnd as [|? ? Hnotin Hnd']; subst.
    change (flat_map dispatch_calls (a :: l))
      with (dispatch_calls a ++ flat_map dispatch_calls l).
    apply NoDup_app.
    + apply dispatch_calls_nodup.
    + auto.
    + intros e He Hin. apply in_flat_map in Hin as (b & Hb & Heb).
      apply Hnotin. rewrite (dispatch_calls_id a b e He Heb). now apply in_map.
Qed.

Lemma NoDup_firstn {A} n (l : list A) : NoDup l -> NoDup (firstn n l).
Proof.
  intros H. rewrite <- (firstn_skipn n l) in H.
  now apply NoDup_app_remove_r in H.
Qed.

(** X14. Within one sweep, however it ends, the calls it records after the
    refresh are all different: no airdrop gets a second log line, a second
    distribution or a second removal in the same pass. *)
Theorem sweep_distributes_once w s res s' :
  inv s ->
  ext_ok w DbFind = true ->
  frame w s = (res, s') ->
  exists t, trace s' = trace (after_update s) ++ t /\ NoDup t /\
    forall a t1 t2, t = t1 ++ AirdropResolve a :: t2 ->
      ~ In (AirdropResolve a) t1 /\ ~ In (AirdropResolve a) t2.
Proof.
  intros Hinv Hfind. rewrite frame_run, Hfind. intros H.
  apply for_each_dispatch_prefix in H as (n & Ht).
  exists (firstn n (flat_map dispatch_calls (to_resolve w (_state (after_update s))))).
  split; [exact Ht|].
  assert (Hnd : NoDup (firstn n (flat_map dispatch_calls
                                   (to_resolve w (_state (after_update s)))))).
  { apply NoDup_firstn, flat_dispatch_calls_nodup, to_resolve_nodup.
    now apply after_update_wf. }
  split; [exact Hnd|].
  intros a t1 t2 E. rewrite E in Hnd.
  apply NoDup_remove_2 in Hnd. split; intros Hin; apply Hnd, in_or_app; auto.
Qed.

Lemma sweep_distributes_once_witness :
  exists t, trace (snd (frame (Sample.failing 1200 100) Sample.s312)) =
            trace (after_update Sample.s312) ++ t /\ NoDup t.
Proof.
  destruct (sweep_distributes_once (Sample.failing 1200 100) Sample.s312
              (fst (frame (Sample.failing 1200 100) Sample.s312))
              (snd (frame (Sample.failing 1200 100) Sample.s312))
              inv_sample_s312 eq_refl eq_refl) as (t & H1 & H2 & _).
  exists t. split; assumption.
Defined.

(** ** An announcement that cannot be built *)

(** X15. [new_airdrop] confirms to the invoker (line 79) before it builds
    the announcement (lines 81-85).  When the end date cannot be converted
    or the bot has no avatar, the command raises after that confirmation
    and before anything is sent: the only calls made are the affordability
    check and the confirmation, and the cache and the collection are as
    they were. *)
Theorem new_airdrop_announcement_failure ctx amount0 duration channel w s :
  can_afford w (to_contract_value w amount0) = true ->
  ext_ok w (CanAfford (to_contract_value w amount0)) = true ->
  ext_ok w CtxRespond = true ->
  ext_ok w (EmbedTimestamp (now w + duration)) = false \/
  ext_ok w BotAvatarUrl = false ->
  exists e,
    (e = EmbedTimestamp (now w + duration) \/ e = BotAvatarUrl) /\
    new_airdrop ctx amount0 duration channel w s =
      (Raise (ExternalError e),
       {| _state := _state s;
          airdrops_db := airdrops_db s;
          trace := trace s ++ [CanAfford (to_contract_value w amount0); CtxRespond] |}).
Proof.
  intros Haff E1 E2 Hfail.
  unfold new_airdrop, bind at 1, ask. unfold bind at 1, call at 1. rewrite E1, Haff.
  change (negb true) with false. cbv iota.
  unfold bind at 1, call at 1. rewrite E2.
  unfold bind at 1, check at 1.
  destruct (ext_ok w (EmbedTimestamp (now w + duration))) eqn:Et.
  - unfold bind at 1, check at 1.
    destruct (ext_ok w BotAvatarUrl) eqn:Eb.
    { destruct Hfail; discriminate. }
    exists BotAvatarUrl. split; [now right|].
    unfold record. simpl. now rewrite <- app_assoc.
  - exists (EmbedTimestamp (now w + duration)). split; [now left|].
    unfold record. simpl. now rewrite <- app_assoc.
Qed.

Lemma new_airdrop_announcement_failure_witness :
  new_airdrop Sample.ctx0 100 60 None (Sample.faceless 1000) Sample.s12 =
  (Raise (ExternalError BotAvatarUrl),
   {| _state := _state Sample.s12;
      airdrops_db := airdrops_db Sample.s12;
      trace := [CanAfford 100; CtxRespond] |}).
Proof.
  destruct (new_airdrop_announcement_failure Sample.ctx0 100 60 None
              (Sample.faceless 1000) Sample.s12) as (e & He & H).
  - reflexivity.
  - reflexivity.
  - reflexivity.
  - right. reflexivity.
  - destruct He as [->| ->]; [|exact H].
    vm_compute in H. discriminate.
Defined.
